(** * ArtistAssistApp: the storage schema, the paint set chooser and the
      colour engine

    The development follows the repository file by file:
    - [Js]: the JavaScript values the two source files exchange;
    - [DB]: [src/services/db/db.ts], the IndexedDB schema and its upgrade
      callback;
    - [PaintSetChooser], [ChooserOptions], [ChooserForm]: the paint set form
      component, its option builders and search filters, and its handler;
    - [Engine]: the Spectral Mixer, the colour difference and the Mix Search
      Engine with its Mix Cache, whose code is not in the source tree and
      which are modelled from the specification, in exact arithmetic over the
      real numbers;
    - [Binary64]: the formulas of the Spectral Mixer once more, evaluated in
      the floating-point numbers of the repository's language. *)

From Stdlib Require Import ZArith Ascii String List Reals Lra.
From Stdlib Require Floats.
From stdpp Require Import base option gmap strings list sorting lexico pretty.

Local Open Scope string_scope.
Set Warnings "-register-all".

(** ** Results and exceptions *)

(** A call either returns a value or throws. *)
Inductive result (E A : Type) : Type :=
  | Ok (a : A)
  | Throw (e : E).
Arguments Ok {E A} a.
Arguments Throw {E A} e.

#[global] Instance result_ret {E} : MRet (result E) := fun _ a => Ok a.
#[global] Instance result_bind {E} : MBind (result E) := fun _ _ k m =>
  match m with
  | Ok a => k a
  | Throw e => Throw e
  end.

(** ** JavaScript values *)

Module Js.

(** Plain data as both source files handle it: form values, stored records
    and cascader options are object literals over numbers, strings and
    arrays.  The properties of an object are listed in the order in which
    [Object.keys] reports them, which for the names used here is the order of
    the literal. *)
Inductive value : Type :=
  | Undefined
  | Num (n : Z)
  | Str (s : string)
  | Arr (items : list value)
  | Obj (props : list (string * value)).

#[global] Instance value_eq_dec : EqDecision value.
Proof.
  refine (fix go (v w : value) {struct v} : Decision (v = w) :=
    match v, w with
    | Undefined, Undefined => left eq_refl
    | Num n, Num m => cast_if (decide (n = m))
    | Str s, Str t => cast_if (decide (s = t))
    | Arr l, Arr l' => cast_if (@list_eq_dec _ go l l')
    | Obj p, Obj p' => cast_if (@list_eq_dec _ (@prod_eq_dec _ _ _ go) p p')
    | _, _ => right _
    end); abstract congruence.
Defined.

(** First binding of [k] in a property list. *)
Fixpoint assoc (k : string) (props : list (string * value)) : option value :=
  match props with
  | [] => None
  | (k', v) :: rest => if decide (k = k') then Some v else assoc k rest
  end.

(** [o[k]]: a missing property, or a property of something that is not an
    object, reads as [undefined]. *)
Definition get (o : value) (k : string) : value :=
  match o with
  | Obj props => default Undefined (assoc k props)
  | _ => Undefined
  end.

(** [Object.keys(o)] *)
Definition keys (o : value) : list string :=
  match o with
  | Obj props => fst <$> props
  | _ => []
  end.

(** A [Map]: its entries in insertion order, which is the order [entries()]
    and [values()] iterate in.  Keys are pairwise distinct. *)
Definition Map (K V : Type) : Type := list (K * V).

Definition size {K V} (m : Map K V) : nat := length m.
Definition entries {K V} (m : Map K V) : list (K * V) := m.
Definition values {K V} (m : Map K V) : list V := snd <$> m.

End Js.

(** ** [src/services/db/db.ts] *)

Module DB.

(** The exceptions the IndexedDB calls can raise: those of the upgrade
    callback and of opening, and the [DataError] of a [put] without a usable
    key. *)
Inductive DOMException : Type :=
  | ConstraintError
  | NotFoundError
  | VersionError
  | DataError.

(** An object store as [createObjectStore] and [createIndex] leave it: the
    key path given at creation ([None] for out-of-line keys), the indexes by
    name with their key paths, and the stored records, each with the key it
    is filed under, the one put last first. *)
Record IDBObjectStore : Type := {
  keyPath : option string;
  indexes : gmap string string;
  records : list (Js.value * Js.value);
}.

(** The object stores of a database, by name. *)
Abbreviation IDBDatabase := (gmap string IDBObjectStore).

(** [db.objectStoreNames.contains(name)] *)
Definition contains (db : IDBDatabase) (name : string) : bool :=
  bool_decide (is_Some (db !! name)).

(** [db.createObjectStore(name, {keyPath})]: a second store of the same name
    is a [ConstraintError]. *)
Definition createObjectStore (db : IDBDatabase) (name : string)
    (kp : option string) : result DOMException IDBDatabase :=
  if contains db name then Throw ConstraintError
  else Ok (<[name := {| keyPath := kp; indexes := ∅; records := [] |}]> db).

(** [store.createIndex(indexName, keyPath)] on the store called [name]. *)
Definition createIndex (db : IDBDatabase) (name indexName kp : string)
    : result DOMException IDBDatabase :=
  match db !! name with
  | None => Throw NotFoundError
  | Some st =>
      match indexes st !! indexName with
      | Some _ => Throw ConstraintError
      | None =>
          Ok (<[name := {| keyPath := keyPath st;
                           indexes := <[indexName := kp]> (indexes st);
                           records := records st |}]> db)
      end
  end.

(** The [upgrade] callback handed to [openDB]. *)
Definition upgrade (db : IDBDatabase) : result DOMException IDBDatabase :=
  db ← (if negb (contains db "paint-sets") then
          db ← createObjectStore db "paint-sets" (Some "type");
          createIndex db "paint-sets" "by-timestamp" "timestamp"
        else Ok db);
  db ← (if negb (contains db "color-picker") then
          createObjectStore db "color-picker" None
        else Ok db);
  db ← (if negb (contains db "paint-mixes") then
          createObjectStore db "paint-mixes" (Some "id")
        else Ok db);
  if negb (contains db "image-file") then
    createObjectStore db "image-file" None
  else Ok db.

(** What IndexedDB takes as a key, among the values at hand: a number, a
    string, or an array of keys.  [undefined] and objects are no keys. *)
Fixpoint validKey (k : Js.value) : bool :=
  match k with
  | Js.Num _ | Js.Str _ => true
  | Js.Arr items => forallb validKey items
  | Js.Undefined | Js.Obj _ => false
  end.

(** The key a store extracts from a record put without an explicit key
    (in-line keys): the value at the store's key path when that is a key.
    A store without key path extracts none, and so does a store whose key
    path leads to nothing or to something that is no key. *)
Definition inlineKey (st : IDBObjectStore) (record : Js.value) : option Js.value :=
  kp ← keyPath st;
  if validKey (Js.get record kp) then Some (Js.get record kp) else None.

(** [store.get(key)] *)
Definition get (st : IDBObjectStore) (k : Js.value) : option Js.value :=
  snd <$> List.find (fun e => bool_decide (fst e = k)) (records st).

(** The store with [record] under [k], in place of what was under [k]. *)
Definition withRecord (k record : Js.value) (st : IDBObjectStore)
    : IDBObjectStore :=
  {| keyPath := keyPath st;
     indexes := indexes st;
     records :=
       (k, record) :: filter (fun e => fst e ≠ k) (records st) |}.

(** [store.put(record, key?)] on a store without key generator.  With a key
    path the key is extracted from the record, and giving one as well is a
    [DataError], as is a record from which none can be extracted; without a
    key path the key has to be given and has to be a key. *)
Definition put (st : IDBObjectStore) (record : Js.value)
    (k : option Js.value) : result DOMException IDBObjectStore :=
  match keyPath st, k with
  | Some _, Some _ => Throw DataError
  | Some _, None =>
      match inlineKey st record with
      | Some k' => Ok (withRecord k' record st)
      | None => Throw DataError
      end
  | None, Some k' =>
      if validKey k' then Ok (withRecord k' record st) else Throw DataError
  | None, None => Throw DataError
  end.

(** The [ArtistAssistAppDB] interface: for each store the type of its values,
    of its keys and of the keys of its indexes. *)
Inductive valueType : Type :=
  | PaintSetDefinitionT | FileT | ColorPickerSettingsT | PaintMixT.
Inductive keyType : Type :=
  | PaintTypeK | NumberK | StringK.

#[global] Instance valueType_eq_dec : EqDecision valueType.
Proof. solve_decision. Defined.

Record storeSchema : Type := {
  value : valueType;
  key : keyType;
  schemaIndexes : list (string * keyType);
}.

Definition ArtistAssistAppDB : list (string * storeSchema) :=
  [ ("paint-sets",
     {| value := PaintSetDefinitionT; key := PaintTypeK;
        schemaIndexes := [("by-timestamp", NumberK)] |});
    ("image-file",
     {| value := FileT; key := NumberK; schemaIndexes := [] |});
    ("color-picker",
     {| value := ColorPickerSettingsT; key := NumberK; schemaIndexes := [] |});
    ("paint-mixes",
     {| value := PaintMixT; key := StringK; schemaIndexes := [] |}) ].

(** The store names of the schema. *)
Definition storeNames : list string := fst <$> ArtistAssistAppDB.

(** The store of the schema that holds values of type [t]. *)
Definition storeOf (t : valueType) : option string :=
  fst <$> List.find
    (fun e => bool_decide (value (snd e) = t)) ArtistAssistAppDB.

(** What the browser keeps of the database ['artist-assist-app-db'] between
    sessions: the version last opened and the object stores.  A database
    never opened has version 0 and no store. *)
Record Stored : Type := {
  version : N;
  stores : gmap string IDBObjectStore;
}.

(** [openDB(name, version, {upgrade})] of the [idb] library: the callback
    runs when the stored version is older than the requested one; a newer
    stored version is a [VersionError]. *)
Definition openDB (requested : N)
    (callback : gmap string IDBObjectStore →
                result DOMException (gmap string IDBObjectStore))
    (st : Stored) : result DOMException Stored :=
  if (requested <? version st)%N then Throw VersionError
  else if (version st <? requested)%N then
    db ← callback (stores st);
    Ok {| version := requested; stores := db |}
  else Ok st.

(** [dbPromise], as a function of what the browser has stored. *)
Definition dbPromise (st : Stored) : result DOMException Stored :=
  openDB 2 upgrade st.

(** The store a fresh [createObjectStore] call makes. *)
Definition emptyStore (kp : option string) : IDBObjectStore :=
  {| keyPath := kp; indexes := ∅; records := [] |}.

(** The ['paint-sets'] store as the callback makes it. *)
Definition paintSetStore : IDBObjectStore :=
  {| keyPath := Some "type";
     indexes := {["by-timestamp" := "timestamp"]};
     records := [] |}.

(** [db] with [st] under [name], unless a store of that name is there. *)
Definition ensureStore (name : string) (st : IDBObjectStore)
    (db : gmap string IDBObjectStore) : gmap string IDBObjectStore :=
  match db !! name with
  | Some _ => db
  | None => <[name := st]> db
  end.

End DB.

(** ** The paint set chooser component *)

Module PaintSetChooser.

(** [PaintType] and [PaintBrand] are numeric enums of [services/color]: the
    component converts their table keys with [Number(key)] and uses brand 0
    for the custom paint set. *)
Definition PaintType : Type := Z.
Definition PaintBrand : Type := Z.

(** The field of a brand [Label] the component reads. *)
Record Label : Type := { fullText : string }.

(** The fields of a [StoreBoughtPaintSet] the component reads. *)
Record StoreBoughtPaintSet : Type := {
  name : string;
  colors : list Z;
}.

Definition customPaintSetOption : Js.value :=
  Js.Obj [("value", Js.Num 0); ("label", Js.Str "Custom paint set")].

Definition formInitialValues : Js.value :=
  Js.Obj [("type", Js.Undefined);
          ("brands", Js.Arr []);
          ("storeBoughtPaintSet", Js.Undefined);
          ("colors", Js.Obj [])].

Section Component.

(** [PAINT_BRAND_LABELS] is declared in [services/color].  The component
    indexes it with a paint type without a guard and with a brand under
    [?.], so it has a row for every paint type and a label for some of the
    brands. *)
Variable PAINT_BRAND_LABELS : PaintType -> PaintBrand -> option Label.

(** [!type] for [type : PaintType | undefined] *)
Definition noType (type : option PaintType) : bool :=
  match type with
  | None => true
  | Some t => (t =? 0)%Z
  end.

(** The child option of one store-bought set. *)
Definition setOption (s : StoreBoughtPaintSet) : Js.value :=
  Js.Obj [("value", Js.Str (name s)); ("label", Js.Str (name s))].

(** [PAINT_BRAND_LABELS[type][brand]?.fullText] *)
Definition brandLabel (t : PaintType) (brand : PaintBrand) : Js.value :=
  match PAINT_BRAND_LABELS t brand with
  | Some l => Js.Str (fullText l)
  | None => Js.Undefined
  end.

(** The option of one brand, with its sets as children. *)
Definition brandOption (t : PaintType)
    (e : PaintBrand * Js.Map string StoreBoughtPaintSet) : Js.value :=
  Js.Obj [("value", Js.Num (fst e));
          ("label", brandLabel t (fst e));
          ("children", Js.Arr (setOption <$> Js.values (snd e)))].

Definition getStoreBoughtPaintSetOptions (type : option PaintType)
    (storeBoughtPaintSets : Js.Map PaintBrand (Js.Map string StoreBoughtPaintSet))
    : list Js.value :=
  if noType type || (Js.size storeBoughtPaintSets =? 0)%nat then []
  else
    match type with
    | None => []
    | Some t =>
        customPaintSetOption
          :: (brandOption t <$> Js.entries storeBoughtPaintSets)
    end.

(** The collaborators of [handleSubmit]: [toPaintSet] of [services/color]
    and the tab keys of [./types]. *)
Variables (PaintSet Paints TabKey : Type).
Variable toPaintSet : Js.value -> Paints -> PaintSet.
Variables (Photo Colors : TabKey).

(** What [handleSubmit] acts on: the storage collaborator, seen as the
    records handed to [savePaintSet] so far, oldest first, and the two pieces
    of state the parent component owns. *)
Record App : Type := {
  savedPaintSets : list Js.value;
  paintSet : option PaintSet;
  activeTabKey : TabKey;
}.

Definition handleSubmit (paints : Paints) (file : option Js.value)
    (values : Js.value) (app : App) : App :=
  {| savedPaintSets := (savedPaintSets app ++ [values])%list;
     paintSet := Some (toPaintSet values paints);
     activeTabKey := match file with None => Photo | Some _ => Colors end |}.

End Component.

(** Modelled from the spec: the [PaintSetDefinition] type is declared in
    [services/color], which is not in the source tree.  Its shape is, field by
    field: a paint type, a list of brands, an optional reference to a
    store-bought set, and for each brand the list of its paint ids. *)
Definition isNum (v : Js.value) : bool :=
  match v with Js.Num _ => true | _ => false end.

Definition isNumArray (v : Js.value) : bool :=
  match v with Js.Arr items => forallb isNum items | _ => false end.

(** The paint type: a number, or not chosen yet. *)
Definition isType (v : Js.value) : bool :=
  match v with Js.Undefined | Js.Num _ => true | _ => false end.

(** The store-bought set: none, the custom set [[0]], or a brand with the
    name of one of its sets. *)
Definition isStoreBoughtRef (v : Js.value) : bool :=
  match v with
  | Js.Undefined => true
  | Js.Arr [Js.Num _] => true
  | Js.Arr [Js.Num _; Js.Str _] => true
  | _ => false
  end.

(** The colours: for each brand the list of its paint ids. *)
Definition isColors (v : Js.value) : bool :=
  match v with
  | Js.Obj props => forallb (fun p => isNumArray (snd p)) props
  | _ => false
  end.

(** Modelled from the spec: a record is a [PaintSetDefinition] when it has
    exactly these four fields, each of its kind. *)
Definition isPaintSetDefinition (v : Js.value) : bool :=
  bool_decide (Js.keys v ≡ₚ ["type"; "brands"; "storeBoughtPaintSet"; "colors"])
  && isType (Js.get v "type")
  && isNumArray (Js.get v "brands")
  && isStoreBoughtRef (Js.get v "storeBoughtPaintSet")
  && isColors (Js.get v "colors").

End PaintSetChooser.

(** ** The colour engine of the specification *)

Module Engine.

(** Modelled from the spec: the failures of the engine (section 7).  The
    engine itself is not part of the source tree.  [InputError] is the
    rejection of a caller's input; [ArithmeticError] stands for the exception
    a division by zero would raise. *)
Inductive Error : Type :=
  | InputError
  | ArithmeticError.

(** Modelled from the spec: paints are referred to by opaque numeric ids
    (sections 3 and 9). *)
Definition PaintId : Type := nat.

(** Modelled from the spec: a [ReflectanceSpectrum] is the sequence of the
    reflectance samples at 380nm to 730nm in steps of 10nm, here over the
    real numbers. *)
Definition ReflectanceSpectrum : Type := list R.

(** Modelled from the spec: the number of samples of a spectrum. *)
Definition BANDS : nat := 36.

(** Modelled from the spec: the range [0,1] of a reflectance. *)
Definition inUnit (r : R) : Prop := (0 <= r <= 1)%R.

(** Modelled from the spec: the invariant of a spectrum, 36 samples, each
    within [0,1]. *)
Definition validSpectrum (s : ReflectanceSpectrum) : Prop :=
  length s = BANDS ∧ Forall inUnit s.

(** Modelled from the spec: a [Paint] of the Reflectance Dataset, its identity
    and its spectrum.  The display RGB is derived from the spectrum and is not
    stored here; the optional tinting strength, whose weighting section 9
    leaves open, is at its documented default 1 for every paint. *)
Record Paint : Type := {
  paintId : PaintId;
  brand : string;
  name : string;
  spectrum : ReflectanceSpectrum;
}.

(** Modelled from the spec: a [MixRatio] maps paint ids to weights; the
    pairs are kept in a list. *)
Definition MixRatio : Type := list (PaintId * R).

(** Modelled from the spec: the tolerance 1e-6 on the sum of the weights and
    on spectra compared band by band. *)
Definition TOLERANCE : R := (/ 1000000)%R.

(** Modelled from the spec: a sample as step 3 of the Spectral Mixer leaves
    it.  The square root of a negative number is not a number, and neither
    is what is computed from it. *)
Inductive Sample : Type :=
  | Value (r : R)
  | NaN.

(** Modelled from the spec: a sample that is a reflectance, a number within
    [0,1]. *)
Definition isReflectance (x : Sample) : Prop :=
  match x with
  | Value r => inUnit r
  | NaN => False
  end.

(** Modelled from the spec: clamping to [0,1]. *)
Definition clamp01 (x : R) : R :=
  if Rlt_dec x 0 then 0%R else if Rlt_dec 1 x then 1%R else x.

(** Modelled from the spec: the division of step 1, which would raise on a
    zero divisor. *)
Definition checkedDiv (x y : R) : result Error R :=
  if Req_dec_T y 0 then Throw ArithmeticError else Ok (x / y)%R.

(** Modelled from the spec: the paint of the pool with the given id, if the
    id is known. *)
Definition findPaint (pool : list Paint) (i : PaintId) : option Paint :=
  List.find (fun p => bool_decide (paintId p = i)) pool.

(** Modelled from the spec: the reflectance of a paint in band [b]. *)
Definition band (p : Paint) (b : nat) : R := default 0%R (spectrum p !! b).

(** Modelled from the spec: the sum of the weights of a mix ratio. *)
Definition totalWeight (ratios : MixRatio) : R :=
  foldr (fun e acc => (snd e + acc)%R) 0%R ratios.

(** Modelled from the spec: every id of the mix ratio is in the pool. *)
Definition knownIds (pool : list Paint) (ratios : MixRatio) : bool :=
  forallb (fun e => bool_decide (is_Some (findPaint pool (fst e)))) ratios.

Section Mixer.

(** Modelled from the spec: the large finite K/S value of a band that
    reflects nothing.  The spec gives it no value. *)
Variable KS_MAX : R.

(** Modelled from the spec: step 1 of the Spectral Mixer,
    K/S = (1-R)^2 / (2R), with the sentinel at R = 0. *)
Definition ksOfReflectance (r : R) : result Error R :=
  if Req_dec_T r 0 then Ok KS_MAX
  else checkedDiv ((1 - r) * (1 - r)) (2 * r).

(** The value of step 1 without the exception, for the proofs. *)
Definition ksValue (r : R) : R :=
  if Req_dec_T r 0 then KS_MAX else ((1 - r) * (1 - r) / (2 * r))%R.

(** Modelled from the spec: step 3 of the Spectral Mixer,
    R = 1 + K/S - sqrt((K/S)^2 + 2 K/S), clamped to [0,1].  Under a
    negative radicand there is no root to take. *)
Definition reflectanceOfKs (ks : R) : Sample :=
  if Rlt_dec (ks * ks + 2 * ks) 0 then NaN
  else Value (clamp01 (1 + ks - sqrt (ks * ks + 2 * ks))).

(** Modelled from the spec: step 2 of the Spectral Mixer, the K/S values of
    the paints in band [b] combined linearly with their weights. *)
Fixpoint mixedKs (pool : list Paint) (ratios : MixRatio) (b : nat)
    : result Error R :=
  match ratios with
  | [] => Ok 0%R
  | (i, w) :: rest =>
      match findPaint pool i with
      | None => Throw InputError
      | Some p =>
          ks ← ksOfReflectance (band p b);
          acc ← mixedKs pool rest b;
          Ok (w * ks + acc)%R
      end
  end.

(** The sum of step 2 without the exceptions, for the proofs; a weight for
    an unknown id adds nothing. *)
Definition mixedKsValue (pool : list Paint) (ratios : MixRatio) (b : nat) : R :=
  foldr (fun e acc =>
           match findPaint pool (fst e) with
           | Some p => (snd e * ksValue (band p b) + acc)%R
           | None => acc
           end) 0%R ratios.

(** Modelled from the spec: the mixed reflectance of the bands in [bs], each
    band on its own, in order. *)
Fixpoint mixBands (pool : list Paint) (ratios : MixRatio) (bs : list nat)
    : result Error (list Sample) :=
  match bs with
  | [] => Ok []
  | b :: rest =>
      ks ← mixedKs pool ratios b;
      tail ← mixBands pool ratios rest;
      Ok (reflectanceOfKs ks :: tail)
  end.

(** Modelled from the spec: [mix(ratios) -> ReflectanceSpectrum] of the
    Spectral Mixer over a paint pool; it fails with [InputError] if the
    weights do not sum to 1 within the tolerance or a weight is given for an
    id that is not in the pool.  What it returns is the 36 samples of step
    3. *)
Definition mix (pool : list Paint) (ratios : MixRatio)
    : result Error (list Sample) :=
  if Rlt_dec TOLERANCE (Rabs (totalWeight ratios - 1)) then Throw InputError
  else if negb (knownIds pool ratios) then Throw InputError
  else mixBands pool ratios (seq 0 BANDS).

End Mixer.

(** A paint whose first 18 bands reflect nothing and whose last 18 bands
    reflect everything, for the examples. *)
Definition edgePaint : Paint :=
  {| paintId := 1; brand := "Brand"; name := "Edge";
     spectrum := (replicate 18 0%R ++ replicate 18 1%R)%list |}.

(** Two paints that reflect a half, respectively a fifth, of the light in
    every band, for the examples. *)
Definition halfPaint : Paint :=
  {| paintId := 1; brand := "Brand"; name := "Half";
     spectrum := replicate 36 (1 / 2)%R |}.

Definition fifthPaint : Paint :=
  {| paintId := 2; brand := "Brand"; name := "Fifth";
     spectrum := replicate 36 (1 / 5)%R |}.

(** Modelled from the spec: a CIE Lab triple. *)
Record Lab : Type := { L : R; a : R; b : R }.

(** Modelled from the spec: [labDistance(a, b)] of the Color Space Converter.
    The spec calls it the CIE colour-difference formula without naming the
    year; this is the CIE 1976 formula, the Euclidean distance in Lab. *)
Definition labDistance (x y : Lab) : R :=
  sqrt ((L x - L y) * (L x - L y)
        + (a x - a y) * (a x - a y)
        + (b x - b y) * (b x - b y)).

(** Modelled from the spec: a [ResultColor], the Lab value of a predicted
    spectrum with its display RGB. *)
Record ResultColor : Type := {
  lab : Lab;
  rgb : Z * Z * Z;
}.

(** Modelled from the spec: a [PaintMix], a mix ratio with the colour
    predicted for it and its distance to the target. *)
Record PaintMix : Type := {
  ratios : MixRatio;
  color : ResultColor;
  score : R;
}.

(** Modelled from the spec: a ratio on the simplex grid, as a number of steps
    and the number of steps that make up 1. *)
Definition toWeight (q : nat * nat) : R := (INR (fst q) / INR (snd q))%R.

(** Modelled from the spec: the order of the pairs of a fingerprint, by
    paint id. *)
Definition byId (x y : PaintId * (nat * nat)) : Prop := (fst x ≤ fst y)%nat.

#[global] Instance byId_dec : RelDecision byId.
Proof. intros x y. unfold byId. apply _. Defined.

(** Modelled from the spec: the key of the Mix Cache, the pairs of paint id
    and quantized ratio of a mix, sorted by paint id. *)
Definition fingerprint (pairs : list (PaintId * (nat * nat)))
    : list (PaintId * (nat * nat)) :=
  merge_sort byId pairs.

(** Modelled from the spec: the mix ratio a fingerprint stands for. *)
Definition toRatios (key : list (PaintId * (nat * nat))) : MixRatio :=
  (fun e => (fst e, toWeight (snd e))) <$> key.

(** Modelled from the spec: the subsets of a given size of the pool, in the
    order of the pool. *)
Fixpoint subsetsOfSize {A} (k : nat) (l : list A) : list (list A) :=
  match k, l with
  | 0, _ => [[]]
  | S _, [] => []
  | S k', x :: rest =>
      ((cons x <$> subsetsOfSize k' rest) ++ subsetsOfSize k rest)%list
  end.

(** Modelled from the spec: the subsets of size 1 to K. *)
Definition subsets {A} (maxPaints : nat) (l : list A) : list (list A) :=
  flat_map (fun k => subsetsOfSize k l) (seq 1 maxPaints).

(** Modelled from the spec: the points of the simplex grid for [n] paints,
    as the ways to give each paint at least one of [steps] steps. *)
Fixpoint compositions (n steps : nat) : list (list nat) :=
  match n with
  | 0 => match steps with 0 => [[]] | S _ => [] end
  | S n' =>
      flat_map (fun k => cons k <$> compositions n' (steps - k)) (seq 1 steps)
  end.

(** Modelled from the spec: the grid points of one subset, as cache keys. *)
Definition gridKeys (steps : nat) (subset : list Paint)
    : list (list (PaintId * (nat * nat))) :=
  (fun ks => fingerprint (zip (paintId <$> subset)
                              ((fun k => (k, steps)) <$> ks)))
    <$> compositions (length subset) steps.

(** Modelled from the spec: distances compare as real numbers. *)
#[global] Instance R_lexico : Lexico R := Rlt.

#[global] Instance R_lexico_trichotomy : TrichotomyT (@lexico R _).
Proof. exact total_order_T. Defined.

(** Modelled from the spec: what the best-N list is ordered by, the distance
    to the target, then the number of paints, then the paint ids. *)
Definition rank (m : PaintMix) : R * (nat * list PaintId) :=
  (score m, (length (ratios m), fst <$> ratios m)).

(** Modelled from the spec: [m1] is the better candidate, with ties broken
    by fewer paints and then by paint id order. *)
Definition better (m1 m2 : PaintMix) : Prop := lexico (rank m1) (rank m2).

(** [m1] comes before [m2] in a best-N list unless [m2] is better. *)
Definition notWorse (m1 m2 : PaintMix) : Prop := ¬ better m2 m1.

(** Modelled from the spec: a candidate enters the sorted best-N list in
    front of the first mix it is better than. *)
Fixpoint insertMix (m : PaintMix) (best : list PaintMix) : list PaintMix :=
  match best with
  | [] => [m]
  | m' :: rest =>
      match trichotomyT lexico (rank m) (rank m') with
      | inleft (left _) => m :: best
      | _ => m' :: insertMix m rest
      end
  end.

Section Search.

Variable KS_MAX : R.

(** Modelled from the spec: the Color Space Converter from a spectrum to Lab
    and display RGB, for the standard illuminant, observer and reference
    white, whose tables are not given. *)
Variable toResultColor : list Sample -> ResultColor.

(** Modelled from the spec: the cheap lower bound on the distance from the
    target to any mix of a subset. *)
Variable lowerBound : list Paint -> Lab -> R.

(** Modelled from the spec: the eviction policy of the Mix Cache, run after
    an entry is added. *)
Variable evict :
  gmap (list (PaintId * (nat * nat))) ResultColor ->
  gmap (list (PaintId * (nat * nat))) ResultColor.

(** Modelled from the spec: the bound K on the number of paints of a mix and
    the number of grid steps. *)
Variables (MAX_PAINTS GRID_STEPS : nat).

(** Modelled from the spec: the colour predicted for a grid point, by the
    Spectral Mixer and then the Color Space Converter. *)
Definition colorOf (pool : list Paint) (key : list (PaintId * (nat * nat)))
    : result Error ResultColor :=
  s ← mix KS_MAX pool (toRatios key); Ok (toResultColor s).

(** Modelled from the spec: the Mix Search Engine asks the Mix Cache and
    falls back to computing the colour, which it then stores. *)
Definition cached (pool : list Paint) (key : list (PaintId * (nat * nat)))
    (cache : gmap (list (PaintId * (nat * nat))) ResultColor)
    : result Error ResultColor * gmap (list (PaintId * (nat * nat))) ResultColor :=
  match cache !! key with
  | Some c => (Ok c, cache)
  | None =>
      match colorOf pool key with
      | Ok c => (Ok c, evict (<[key := c]> cache))
      | Throw e => (Throw e, cache)
      end
  end.

(** Modelled from the spec: the evaluation of the grid points of a subset,
    each one scored against the target and entered into the best-N list. *)
Fixpoint evalPoints (pool : list Paint) (target : Lab) (maxResults : nat)
    (keys : list (list (PaintId * (nat * nat)))) (best : list PaintMix)
    (cache : gmap (list (PaintId * (nat * nat))) ResultColor)
    : result Error (list PaintMix)
      * gmap (list (PaintId * (nat * nat))) ResultColor :=
  match keys with
  | [] => (Ok best, cache)
  | key :: rest =>
      match cached pool key cache with
      | (Ok c, cache') =>
          let m := {| ratios := toRatios key; color := c;
                      score := labDistance (lab c) target |} in
          evalPoints pool target maxResults rest
            (take maxResults (insertMix m best)) cache'
      | (Throw e, cache') => (Throw e, cache')
      end
  end.

(** Modelled from the spec: a subset is skipped when the best-N list is full
    and the lower bound of the subset exceeds the score of its worst entry. *)
Definition pruned (maxResults : nat) (subset : list Paint) (target : Lab)
    (best : list PaintMix) : bool :=
  bool_decide (length best = maxResults)
  && match last best with
     | Some worst =>
         if Rlt_dec (score worst) (lowerBound subset target) then true
         else false
     | None => false
     end.

(** Modelled from the spec: the loop over the subsets.  The cancellation
    check between two subsets and the evaluation on several workers belong to
    the scheduling and are not part of this sequential search. *)
Fixpoint searchSubsets (pool : list Paint) (target : Lab) (maxResults : nat)
    (todo : list (list Paint)) (best : list PaintMix)
    (cache : gmap (list (PaintId * (nat * nat))) ResultColor)
    : result Error (list PaintMix)
      * gmap (list (PaintId * (nat * nat))) ResultColor :=
  match todo with
  | [] => (Ok best, cache)
  | subset :: rest =>
      if pruned maxResults subset target best then
        searchSubsets pool target maxResults rest best cache
      else
        match evalPoints pool target maxResults
                (gridKeys GRID_STEPS subset) best cache with
        | (Ok best', cache') =>
            searchSubsets pool target maxResults rest best' cache'
        | (Throw e, cache') => (Throw e, cache')
        end
  end.

(** Modelled from the spec: [findBestMixes(targetColor, paintSet,
    maxResults)] of the Mix Search Engine, as a function of the Mix Cache it
    finds and leaves.  An empty pool is an [InputError]. *)
Definition findBestMixes (target : Lab) (pool : list Paint)
    (maxResults : nat)
    (cache : gmap (list (PaintId * (nat * nat))) ResultColor)
    : result Error (list PaintMix)
      * gmap (list (PaintId * (nat * nat))) ResultColor :=
  match pool with
  | [] => (Throw InputError, cache)
  | _ :: _ =>
      searchSubsets pool target maxResults (subsets MAX_PAINTS pool) [] cache
  end.

(** Modelled from the spec: Mix Cache entries are derived values; a cache
    holds nothing but colours the engine computes for its keys, over the
    paints given: those of a pool, or those of the whole dataset. *)
Definition cacheValid (pool : list Paint)
    (cache : gmap (list (PaintId * (nat * nat))) ResultColor) : Prop :=
  ∀ key c, cache !! key = Some c → colorOf pool key = Ok c.

End Search.

(** Modelled from the spec: a pool of paints of the dataset.  Mixes refer
    to paints by id only and the dataset is the one source of spectra
    (section 3): the paint a pool has under an id is the paint the dataset
    has under it. *)
Definition poolOf (dataset pool : list Paint) : Prop :=
  ∀ i p, findPaint pool i = Some p → findPaint dataset i = Some p.

(** Modelled from the spec: the Mix Caches the engine can come to hold over
    one dataset: the empty one it starts with, and the one a search leaves
    behind, whatever its pool of paints of the dataset, its target, its
    number of results, its lower bound, its bound on the paints of a mix and
    its grid. *)
Inductive reachable (KS_MAX : R) (toResultColor : list Sample -> ResultColor)
    (evict : gmap (list (PaintId * (nat * nat))) ResultColor ->
             gmap (list (PaintId * (nat * nat))) ResultColor)
    (dataset : list Paint)
    : gmap (list (PaintId * (nat * nat))) ResultColor -> Prop :=
  | reachable_empty : reachable KS_MAX toResultColor evict dataset ∅
  | reachable_search cache lowerBound maxPaints steps target pool maxResults :
      reachable KS_MAX toResultColor evict dataset cache ->
      (∀ p, p ∈ pool → p ∈ dataset) ->
      reachable KS_MAX toResultColor evict dataset
        (snd (findBestMixes KS_MAX toResultColor lowerBound evict maxPaints
                steps target pool maxResults cache)).

End Engine.

(** ** The Spectral Mixer in floating point *)

Module Binary64.
Import PrimFloat.
Local Open Scope float_scope.

(** Modelled from the spec: a paint of the dataset with its spectrum, in the
    numbers of the repository's language, which are binary64. *)
Record Paint : Type := {
  paintId : nat;
  spectrum : list float;
}.

(** Modelled from the spec: the tolerance 1e-6. *)
Definition TOLERANCE : float := 1 / 1000000.

(** Modelled from the spec: clamping to [0,1]. *)
Definition clamp01 (x : float) : float :=
  if x <? 0 then 0 else if 1 <? x then 1 else x.

(** Modelled from the spec: step 1 of the Spectral Mixer,
    K/S = (1-R)^2 / (2R), with the sentinel at R = 0. *)
Definition ksOfReflectance (KS_MAX r : float) : float :=
  if r =? 0 then KS_MAX else (1 - r) * (1 - r) / (2 * r).

(** Modelled from the spec: step 3 of the Spectral Mixer,
    R = 1 + K/S - sqrt((K/S)^2 + 2 K/S), clamped to [0,1]. *)
Definition reflectanceOfKs (ks : float) : float :=
  clamp01 (1 + ks - sqrt (ks * ks + 2 * ks)).

(** Modelled from the spec: the paint of the pool with the given id. *)
Definition findPaint (pool : list Paint) (i : nat) : option Paint :=
  List.find (fun p => Nat.eqb (paintId p) i) pool.

(** Modelled from the spec: the reflectance of a paint in band [b]. *)
Definition band (p : Paint) (b : nat) : float := nth b (spectrum p) 0.

(** Modelled from the spec: the sum of the weights of a mix ratio. *)
Definition totalWeight (ratios : list (nat * float)) : float :=
  foldr (fun e acc => snd e + acc) 0 ratios.

(** Modelled from the spec: every id of the mix ratio is in the pool. *)
Definition knownIds (pool : list Paint) (ratios : list (nat * float)) : bool :=
  forallb (fun e => bool_decide (is_Some (findPaint pool (fst e)))) ratios.

(** Modelled from the spec: step 2 of the Spectral Mixer, the K/S values of
    the paints in band [b] combined linearly with their weights. *)
Fixpoint mixedKs (KS_MAX : float) (pool : list Paint)
    (ratios : list (nat * float)) (b : nat) : float :=
  match ratios with
  | [] => 0
  | (i, w) :: rest =>
      match findPaint pool i with
      | Some p =>
          w * ksOfReflectance KS_MAX (band p b) + mixedKs KS_MAX pool rest b
      | None => mixedKs KS_MAX pool rest b
      end
  end.

(** Modelled from the spec: [mix(ratios) -> ReflectanceSpectrum] of the
    Spectral Mixer, with the formulas of section 4.3 evaluated as they are
    written.  A floating-point division raises nothing. *)
Definition mix (KS_MAX : float) (pool : list Paint)
    (ratios : list (nat * float)) : result Engine.Error (list float) :=
  if TOLERANCE <? abs (totalWeight ratios - 1) then Throw Engine.InputError
  else if negb (knownIds pool ratios) then Throw Engine.InputError
  else Ok ((fun b => reflectanceOfKs (mixedKs KS_MAX pool ratios b))
             <$> seq 0 Engine.BANDS).

(** Modelled from the spec: the range [0,1] of a reflectance.  No
    comparison holds of a NaN, so a NaN is not within it. *)
Definition inUnit (x : float) : bool := (0 <=? x) && (x <=? 1).

(** The numbers 0 and 1: a band that reflects nothing, and a band that
    reflects everything or the ratio of a paint mixed alone. *)
Definition zero : float := 0.
Definition one : float := 1.

(** Modelled from the spec: a large finite sentinel.  The spec gives it no
    value; this one is a million. *)
Definition sentinel : float := 1000000.

(** Modelled from the spec: two numbers within the tolerance of each
    other. *)
Definition within (x y : float) : bool := abs (x - y) <=? TOLERANCE.

(** Modelled from the spec: the dataset gives its reflectances with a fixed
    precision (section 6), which the spec does not name.  A reflectance given
    to six decimals is a number of millionths; the division rounds to the
    nearest floating-point number, as reading the decimal does. *)
Definition gridBand (k : Z) : float :=
  of_uint63 (Uint63.of_Z k) / 1000000.

Definition onGrid (y : float) : Prop :=
  ∃ k : Z, (0 ≤ k ≤ 1000000)%Z ∧ y = gridBand k.

(** Modelled from the spec: one band of a paint mixed alone at ratio 1,
    through steps 1 to 3. *)
Definition alone (KS_MAX y : float) : float :=
  reflectanceOfKs (1 * ksOfReflectance KS_MAX y + 0).

(** What is to hold of a reflectance of so many millionths: it is within
    [0,1], and mixed alone it comes back within the tolerance and within
    [0,1]. *)
Definition gridCheck (k : Z) : bool :=
  inUnit (gridBand k)
  && within (alone sentinel (gridBand k)) (gridBand k)
  && inUnit (alone sentinel (gridBand k)).

(** One step of running [gridCheck] over the millionths in order. *)
Definition gridStep (st : Z * bool) : Z * bool :=
  ((fst st + 1)%Z, snd st && gridCheck (fst st)).

End Binary64.

(** ** The paint set chooser: options and search *)

Module ChooserOptions.
Import PaintSetChooser.

(** [s.includes(needle)] *)
Fixpoint includes (s needle : string) : bool :=
  String.prefix needle s
  || match s with
     | EmptyString => false
     | String _ rest => includes rest needle
     end.

(** The first [n] characters of [pad] repeated; [rest] is what is left of
    the current copy. *)
Fixpoint fillChars (n : nat) (pad rest : string) : string :=
  match n with
  | 0 => ""
  | S n' =>
      match rest with
      | String c r => String c (fillChars n' pad r)
      | EmptyString =>
          match pad with
          | String c r => String c (fillChars n' pad r)
          | EmptyString => ""
          end
      end
  end.

(** [s.padStart(targetLength, padString)] *)
Definition padStart (targetLength : nat) (padString s : string) : string :=
  if (targetLength <=? String.length s)%nat then s
  else fillChars (targetLength - String.length s) padString padString +:+ s.

(** [Map.prototype.get] *)
Definition mapGet {K V} `{EqDecision K} (m : Js.Map K V) (k : K) : option V :=
  snd <$> List.find (fun e => bool_decide (fst e = k)) m.

(** [Object.fromEntries]: of two entries with the same key the later one
    stays. *)
Definition fromEntries {V} (l : list (Z * V)) : gmap Z V :=
  list_to_map (reverse l).

(** What an option shows: a string, or a React element with its key, its
    props and its children. *)
Inductive ReactNode : Type :=
  | Text (s : string)
  | Element (type : string) (key : option string)
      (props : list (string * Js.value)) (children : list ReactNode).

(** An option of a [Select]; the label may be missing. *)
Record SelectOption : Type := {
  value : Z;
  label : option ReactNode;
}.

(** The fields of a [Paint] the component reads. *)
Record Paint : Type := {
  id : Z;
  name : string;
  rgb : Js.value;
}.

(** The label of a paint: [String(id).padStart(3, '0')], a space and the
    name for ids below 1000, the name alone otherwise. *)
Definition paintLabel (p : Paint) : string :=
  if (id p <? 1000)%Z then padStart 3 "0" (pretty (id p)) +:+ " " +:+ name p
  else name p.

(** The option of one paint: its colour square and its label in a [Space]
    whose key is the label. *)
Definition paintOption (p : Paint) : SelectOption :=
  {| value := id p;
     label := Some
       (Element "Space" (Some (paintLabel p))
          [("size", Js.Str "small"); ("align", Js.Str "center")]
          [Element "ColorSquare" None [("color", rgb p)] [];
           Element "span" None [] [Text (paintLabel p)]]) |}.

Definition getPaintOptions (paints : Js.Map PaintBrand (Js.Map Z Paint))
    : gmap Z (list SelectOption) :=
  if (Js.size paints =? 0)%nat then ∅
  else
    fromEntries
      ((fun e => (fst e, paintOption <$> Js.values (snd e)))
         <$> Js.entries paints).

Section Tables.

(** [Object.entries(PAINT_BRAND_LABELS[type])], with the keys read back as
    numbers: the table is declared in [services/color]. *)
Variable PAINT_BRAND_LABELS : PaintType -> list (PaintBrand * Label).

Definition getPaintBrandOptions (type : option PaintType) : list SelectOption :=
  if noType type then []
  else
    match type with
    | None => []
    | Some t =>
        (fun e => {| value := fst e; label := Some (Text (fullText (snd e))) |})
          <$> PAINT_BRAND_LABELS t
    end.

(** [PAINT_BRAND_LABELS[type][brand]] *)
Definition brandLabelOf (t : PaintType) (brand : PaintBrand) : option Label :=
  mapGet (PAINT_BRAND_LABELS t) brand.

(** [String.prototype.toLowerCase] *)
Variable toLowerCase : string -> string.

Definition filterSelectOptions (inputValue : string)
    (option : option SelectOption) : bool :=
  match option with
  | None => false
  | Some o =>
      match label o with
      | None => false
      | Some (Text "") => false
      | Some (Text l) => includes (toLowerCase l) (toLowerCase inputValue)
      | Some (Element _ key _ _) =>
          match key with
          | Some k => includes (toLowerCase k) (toLowerCase inputValue)
          | None => false
          end
      end
  end.

(** What reading a property of [undefined], or calling [toLowerCase] on
    something that is not a string, raises. *)
Inductive TypeError : Type := NotAString.

(** [path.some(option => option.label.toLowerCase().includes(...))]: the
    options are tried in order, and a label that is not a string raises when
    it is reached. *)
Fixpoint filterCascaderOptions (inputValue : string) (path : list Js.value)
    : result TypeError bool :=
  match path with
  | [] => Ok false
  | option :: rest =>
      match Js.get option "label" with
      | Js.Str l =>
          if includes (toLowerCase l) (toLowerCase inputValue) then Ok true
          else filterCascaderOptions inputValue rest
      | _ => Throw NotAString
      end
  end.

End Tables.

(** A decimal digit, and the number a string of digits stands for. *)
Definition isDigit (c : ascii) : bool :=
  match Ascii.is_nat c with Some _ => true | None => false end.

Fixpoint digitsValue (acc : Z) (s : string) : Z :=
  match s with
  | EmptyString => acc
  | String c rest =>
      digitsValue (10 * acc + Z.of_nat (default 0%nat (Ascii.is_nat c))) rest
  end.

(** The test that [n], padded to three characters, is three digits that
    stand for [n]. *)
Definition paddedCheck (n : nat) : bool :=
  let d := padStart 3 "0" (pretty (Z.of_nat n)) in
  (String.length d =? 3)%nat
  && forallb isDigit (list_ascii_of_string d)
  && (digitsValue 0 d =? Z.of_nat n)%Z.

(** Whether an option of a cascader matches the search, when its label is a
    string. *)
Definition labelMatches (toLowerCase : string -> string) (inputValue : string)
    (option : Js.value) : bool :=
  match Js.get option "label" with
  | Js.Str l => includes (toLowerCase l) (toLowerCase inputValue)
  | _ => false
  end.

(** Lower case for the letters A to Z, the other characters as they are. *)
Definition lowerChar (c : ascii) : ascii :=
  let n := nat_of_ascii c in
  if ((65 <=? n) && (n <=? 90))%nat then ascii_of_nat (n + 32) else c.

Fixpoint lowerAscii (s : string) : string :=
  match s with
  | EmptyString => EmptyString
  | String c rest => String (lowerChar c) (lowerAscii rest)
  end.

End ChooserOptions.

(** ** The paint set chooser: the form handler *)

Module ChooserForm.
Import PaintSetChooser ChooserOptions.

(** The value of the cascader: [[brand, name]] for a store-bought set,
    [[0]] for the custom set. *)
Definition SetRef : Type := (PaintBrand * option string)%type.

(** [const customPaintSet = [0]] *)
Definition customPaintSet : SetRef := (0%Z, None).

(** A [Partial<PaintSetDefinition>]: each field is there or not.  The store
    bought set can be there as [undefined], and so can the colours of a
    brand. *)
Record Partial : Type := {
  type : option PaintType;
  brands : option (list PaintBrand);
  storeBoughtPaintSet : option (option SetRef);
  colors : option (gmap Z (option (list Z)));
}.

Definition noFields : Partial :=
  {| type := None; brands := None; storeBoughtPaintSet := None;
     colors := None |}.

Section Handler.

(** A record as [getPaintSetByType] of [services/db] returns it. *)
Variable StoredPaintSet : Type.

(** What the handler does to its surroundings, in order: the calls of
    [form.setFieldsValue], with the argument as it is when the call is made,
    and the read of the database. *)
Inductive Call : Type :=
  | SetFieldsValue (fields : Partial)
  | GetPaintSetByType (t : PaintType)
  | SetFieldsValueFromDb (values : StoredPaintSet).

(** What [getPaintSetByType] resolves to. *)
Variable getPaintSetByType : PaintType -> option StoredPaintSet.

(** The store-bought sets the component has loaded. *)
Variable storeBoughtPaintSets :
  Js.Map PaintBrand (Js.Map string StoreBoughtPaintSet).

(** [Object.fromEntries(Object.keys(values.colors).map(brand => [brand, []]))],
    or [{}] without colours. *)
Definition emptiedColors (values : Partial) : gmap Z (option (list Z)) :=
  match colors values with
  | Some c => (fun _ => Some []) <$> c
  | None => ∅
  end.

(** [storeBoughtPaintSets.get(brand)?.get(storeBoughtPaintSetName)?.colors] *)
Definition setColors (ref : SetRef) : option (list Z) :=
  inner ← mapGet storeBoughtPaintSets (fst ref);
  n ← snd ref;
  s ← mapGet inner n;
  Some (PaintSetChooser.colors s).

Definition handleFormValuesChange (changedValues values : Partial)
    : list Call :=
  let colors0 := emptiedColors values in
  (match type changedValues with
   | Some t =>
       if (t =? 0)%Z then []
       else
         SetFieldsValue
           {| type := None; brands := Some [];
              storeBoughtPaintSet := Some None; colors := Some colors0 |}
         :: GetPaintSetByType t
         :: match getPaintSetByType t with
            | Some valuesFromDb => [SetFieldsValueFromDb valuesFromDb]
            | None => []
            end
   | None => []
   end)
  ++ (match brands changedValues with
      | Some _ =>
          [SetFieldsValue
             {| type := None; brands := None;
                storeBoughtPaintSet := Some None; colors := Some colors0 |}]
      | None => []
      end)
  ++ (match storeBoughtPaintSet changedValues with
      | Some (Some ref) =>
          let colors1 :=
            if negb (fst ref =? 0)%Z
               && negb (Js.size storeBoughtPaintSets =? 0)%nat
            then <[fst ref := setColors ref]> colors0
            else colors0 in
          [SetFieldsValue
             {| type := None; brands := None; storeBoughtPaintSet := None;
                colors := Some colors1 |}]
      | _ => []
      end)
  ++ (match colors changedValues with
      | Some _ =>
          [SetFieldsValue
             {| type := None; brands := None;
                storeBoughtPaintSet := Some (Some customPaintSet);
                colors := None |}]
      | None => []
      end).

End Handler.

(** The fields as the JavaScript values they stand for: the ids of a brand
    as an array of numbers or [undefined], the colours as an object with the
    brands as its keys, the cascader value as the array it is, and a partial
    record as an object with the fields that are there. *)
Definition idsToJs (ids : option (list Z)) : Js.value :=
  match ids with
  | Some l => Js.Arr (Js.Num <$> l)
  | None => Js.Undefined
  end.

Definition colorsToJs (c : gmap Z (option (list Z))) : Js.value :=
  Js.Obj ((fun e => (pretty (fst e), idsToJs (snd e))) <$> map_to_list c).

Definition setRefToJs (ref : option SetRef) : Js.value :=
  match ref with
  | None => Js.Undefined
  | Some (brand, None) => Js.Arr [Js.Num brand]
  | Some (brand, Some n) => Js.Arr [Js.Num brand; Js.Str n]
  end.

Definition toJs (fields : Partial) : Js.value :=
  Js.Obj
    (option_list ((fun t => ("type", Js.Num t)) <$> type fields)
     ++ option_list
          ((fun l => ("brands", Js.Arr (Js.Num <$> l))) <$> brands fields)
     ++ option_list
          ((fun r => ("storeBoughtPaintSet", setRefToJs r))
             <$> storeBoughtPaintSet fields)
     ++ option_list ((fun c => ("colors", colorsToJs c)) <$> colors fields))%list.

(** [form.setFieldsValue(fields)] on the record of the form: a field that
    is given replaces the one of the record, the colours brand by brand. *)
Definition setFieldsValue (record fields : Partial) : Partial :=
  {| type := if type fields is Some t then Some t else type record;
     brands := if brands fields is Some l then Some l else brands record;
     storeBoughtPaintSet :=
       if storeBoughtPaintSet fields is Some r then Some r
       else storeBoughtPaintSet record;
     colors :=
       if colors fields is Some c then Some (c ∪ default ∅ (colors record))
       else colors record |}.

(** The colours as the handler leaves them: for each brand a list of paint
    ids or [undefined]. *)
Definition isFormColors (v : Js.value) : bool :=
  match v with
  | Js.Obj props =>
      forallb (fun p => isNumArray (snd p)
                        || bool_decide (snd p = Js.Undefined)) props
  | _ => false
  end.

End ChooserForm.

(** * Properties *)

(** ** The database schema *)

Section DBFacts.
Import DB.
Implicit Types db : gmap string IDBObjectStore.

Lemma contains_spec db name : contains db name = true ↔ is_Some (db !! name).
Proof. unfold contains. by rewrite bool_decide_eq_true. Qed.

Lemma contains_None db name : db !! name = None → contains db name = false.
Proof.
  intros H. unfold contains. apply bool_decide_eq_false.
  rewrite H. by intros [? ?].
Qed.

Lemma contains_Some db name st : db !! name = Some st → contains db name = true.
Proof. intros H. apply contains_spec. eauto. Qed.

(** One guarded step of the callback. *)
Lemma guarded_create db name kp :
  (if negb (contains db name) then createObjectStore db name kp else Ok db)
  = Ok (ensureStore name (emptyStore kp) db).
Proof.
  unfold ensureStore, createObjectStore.
  destruct (db !! name) as [st|] eqn:E.
  - by rewrite (contains_Some _ _ _ E).
  - by rewrite (contains_None _ _ E).
Qed.

(** The first step, which also adds the index. *)
Lemma guarded_create_paint_sets db :
  (if negb (contains db "paint-sets") then
     db' ← createObjectStore db "paint-sets" (Some "type");
     createIndex db' "paint-sets" "by-timestamp" "timestamp"
   else Ok db)
  = Ok (ensureStore "paint-sets" paintSetStore db).
Proof.
  unfold ensureStore, createObjectStore.
  destruct (db !! "paint-sets") as [st|] eqn:E.
  - by rewrite (contains_Some _ _ _ E).
  - rewrite (contains_None _ _ E). cbn.
    unfold createIndex. rewrite lookup_insert_eq. cbn.
    rewrite lookup_empty. by rewrite insert_insert_eq.
Qed.

(** The callback never throws, and its result is the database with the four
    stores filled in where they were missing. *)
Lemma upgrade_eq db :
  upgrade db =
  Ok (ensureStore "image-file" (emptyStore None)
       (ensureStore "paint-mixes" (emptyStore (Some "id"))
         (ensureStore "color-picker" (emptyStore None)
           (ensureStore "paint-sets" paintSetStore db)))).
Proof.
  unfold upgrade. rewrite guarded_create_paint_sets. cbn.
  rewrite guarded_create. cbn. rewrite guarded_create. cbn.
  by rewrite guarded_create.
Qed.

Lemma ensureStore_old name st db n s :
  db !! n = Some s → ensureStore name st db !! n = Some s.
Proof.
  intros H. unfold ensureStore. destruct (db !! name) eqn:E; [done|].
  rewrite lookup_insert_ne; [done|]. intros ->. congruence.
Qed.

Lemma ensureStore_here name st db : is_Some (ensureStore name st db !! name).
Proof.
  unfold ensureStore. destruct (db !! name) eqn:E.
  - rewrite E. eauto.
  - rewrite lookup_insert_eq. eauto.
Qed.

Lemma ensureStore_new name st db :
  db !! name = None → ensureStore name st db !! name = Some st.
Proof. intros H. unfold ensureStore. rewrite H. apply lookup_insert_eq. Qed.

Lemma ensureStore_other name st db n :
  n ≠ name → ensureStore name st db !! n = db !! n.
Proof.
  intros H. unfold ensureStore. destruct (db !! name); [done|].
  by rewrite lookup_insert_ne.
Qed.

Lemma ensureStore_present name st db :
  is_Some (db !! name) → ensureStore name st db = db.
Proof. intros [s H]. unfold ensureStore. by rewrite H. Qed.

(** The four names of the schema. *)
Lemma storeNames_eq :
  storeNames = ["paint-sets"; "image-file"; "color-picker"; "paint-mixes"].
Proof. reflexivity. Qed.

(** Reading back what [withRecord] wrote. *)
Lemma get_withRecord k record st k' :
  get (withRecord k record st) k'
  = if decide (k' = k) then Some record else get st k'.
Proof.
  unfold get, withRecord. cbn [records List.find fst].
  destruct (decide (k' = k)) as [->|Hne].
  - by rewrite bool_decide_eq_true_2.
  - rewrite bool_decide_eq_false_2 by done.
    induction (records st) as [|[k0 r0] l IH]; [done|].
    rewrite filter_cons. cbn [fst]. destruct (decide (k0 ≠ k)) as [H0|H0].
    + cbn [List.find fst]. by destruct (bool_decide (k0 = k')).
    + apply dec_stable in H0 as ->. cbn [List.find fst].
      by rewrite bool_decide_eq_false_2.
Qed.

(** A [put] into a store with in-line keys, when the record has a key. *)
Lemma put_inline st kp record :
  keyPath st = Some kp →
  validKey (Js.get record kp) = true →
  put st record None = Ok (withRecord (Js.get record kp) record st).
Proof. intros Hkp Hv. unfold put, inlineKey. rewrite Hkp. cbn. by rewrite Hv. Qed.

(** ... and when it has none. *)
Lemma put_inline_invalid st kp record :
  keyPath st = Some kp →
  validKey (Js.get record kp) = false →
  put st record None = Throw DataError.
Proof. intros Hkp Hv. unfold put, inlineKey. rewrite Hkp. cbn. by rewrite Hv. Qed.

(** C2: on a database that has neither store yet, the upgrade callback makes
    ['paint-sets'] with key path ['type'] and ['paint-mixes'] with key path
    ['id'].  A store with the key path of ['paint-sets'] files a record put
    into it under the record's [type], a number, where [get] finds it and
    where it replaces what was filed under that type before; a record
    without a [type] that is a key it rejects with a [DataError], and so it
    does a put that brings a key of its own.  ['paint-mixes'] does the same
    with the [id], a string.  The schema declares the two as the stores of
    [PaintSetDefinition] values keyed by [PaintType] and of [PaintMix] values
    keyed by a string. *)
Theorem paint_sets_and_mixes_keys db :
  db !! "paint-sets" = None →
  db !! "paint-mixes" = None →
  ∃ db' sets mixes,
    upgrade db = Ok db'
    ∧ db' !! "paint-sets" = Some sets
    ∧ db' !! "paint-mixes" = Some mixes
    ∧ keyPath sets = Some "type"
    ∧ keyPath mixes = Some "id"
    ∧ (∀ st record t,
         keyPath st = keyPath sets → Js.get record "type" = Js.Num t →
         ∃ st', put st record None = Ok st'
                ∧ keyPath st' = keyPath sets
                ∧ get st' (Js.Num t) = Some record
                ∧ ∀ k, k ≠ Js.Num t → get st' k = get st k)
    ∧ (∀ st record i,
         keyPath st = keyPath mixes → Js.get record "id" = Js.Str i →
         ∃ st', put st record None = Ok st'
                ∧ keyPath st' = keyPath mixes
                ∧ get st' (Js.Str i) = Some record
                ∧ ∀ k, k ≠ Js.Str i → get st' k = get st k)
    ∧ (∀ st record,
         keyPath st = keyPath sets →
         validKey (Js.get record "type") = false →
         inlineKey st record = None
         ∧ put st record None = Throw DataError)
    ∧ (∀ st record,
         keyPath st = keyPath mixes →
         validKey (Js.get record "id") = false →
         inlineKey st record = None
         ∧ put st record None = Throw DataError)
    ∧ (∀ st record k,
         keyPath st = keyPath sets ∨ keyPath st = keyPath mixes →
         put st record (Some k) = Throw DataError)
    ∧ storeOf PaintSetDefinitionT = Some "paint-sets"
    ∧ storeOf PaintMixT = Some "paint-mixes"
    ∧ key <$> list_to_map (M := gmap string storeSchema) ArtistAssistAppDB
        !! "paint-sets" = Some PaintTypeK
    ∧ key <$> list_to_map (M := gmap string storeSchema) ArtistAssistAppDB
        !! "paint-mixes" = Some StringK.
Proof.
  intros Hsets Hmixes.
  assert (Hfile : ∀ kp st record key,
    keyPath st = Some kp → Js.get record kp = key → validKey key = true →
    ∃ st', put st record None = Ok st'
           ∧ keyPath st' = Some kp
           ∧ get st' key = Some record
           ∧ ∀ k, k ≠ key → get st' k = get st k).
  { intros kp st record key Hkp <- Hv. eexists.
    split; [by apply put_inline|]. split; [exact Hkp|]. split.
    - by rewrite get_withRecord, decide_True.
    - intros k Hk. by rewrite get_withRecord, decide_False. }
  assert (Hreject : ∀ kp st record,
    keyPath st = Some kp → validKey (Js.get record kp) = false →
    inlineKey st record = None ∧ put st record None = Throw DataError).
  { intros kp st record Hkp Hv. split; [|by apply (put_inline_invalid _ kp)].
    unfold inlineKey. rewrite Hkp. cbn. by rewrite Hv. }
  eexists _, paintSetStore, (emptyStore (Some "id")).
  split; [apply upgrade_eq|].
  split.
  { rewrite !ensureStore_other by done. by apply ensureStore_new. }
  split.
  { rewrite ensureStore_other by done. apply ensureStore_new.
    by rewrite !ensureStore_other. }
  do 2 (split; [reflexivity|]).
  split.
  { intros st record t Hkp Ht. apply Hfile; [exact Hkp|exact Ht|done]. }
  split.
  { intros st record i Hkp Hi. apply Hfile; [exact Hkp|exact Hi|done]. }
  split; [intros st record Hkp; by apply Hreject|].
  split; [intros st record Hkp; by apply Hreject|].
  split.
  { intros st record k [Hkp|Hkp]; unfold put; by rewrite Hkp. }
  repeat split.
Qed.

(** The theorem applied to a database that has no store at all: the record
    of a paint set of type 2 is filed under 2, the record the form starts
    from, which has no type, is rejected. *)
Lemma paint_sets_and_mixes_keys_witness :
  ∃ db' sets sets',
    upgrade ∅ = Ok db'
    ∧ db' !! "paint-sets" = Some sets
    ∧ put sets (Js.Obj [("type", Js.Num 2); ("brands", Js.Arr [])]) None
      = Ok sets'
    ∧ get sets' (Js.Num 2)
      = Some (Js.Obj [("type", Js.Num 2); ("brands", Js.Arr [])])
    ∧ put sets PaintSetChooser.formInitialValues None = Throw DataError.
Proof.
  destruct (paint_sets_and_mixes_keys ∅ (lookup_empty _) (lookup_empty _))
    as (db' & sets & mixes & H1 & H2 & _ & _ & _ & Hput & _ & Hno & _).
  destruct (Hput sets (Js.Obj [("type", Js.Num 2); ("brands", Js.Arr [])])
              2%Z eq_refl eq_refl) as (sets' & Hs & _ & Hg & _).
  exists db', sets, sets'.
  split; [exact H1|]. split; [exact H2|]. split; [exact Hs|].
  split; [exact Hg|].
  exact (proj2 (Hno sets PaintSetChooser.formInitialValues eq_refl eq_refl)).
Defined.

(** C10: the upgrade callback never throws; afterwards the four stores of
    the schema exist, every store that was there before is exactly as it was,
    a store is added only under a name of the schema that had none and is
    empty, and running the callback again changes nothing. *)
Theorem upgrade_idempotent db :
  ∃ db',
    upgrade db = Ok db'
    ∧ (∀ name, name ∈ storeNames → is_Some (db' !! name))
    ∧ (∀ name st, db !! name = Some st → db' !! name = Some st)
    ∧ (∀ name, db !! name = None → is_Some (db' !! name) → name ∈ storeNames)
    ∧ (∀ name st, db !! name = None → db' !! name = Some st → records st = [])
    ∧ upgrade db' = Ok db'.
Proof.
  eexists. split; [apply upgrade_eq|].
  split; [|split; [|split; [|split]]].
  - intros name Hin. rewrite storeNames_eq in Hin.
    set_unfold in Hin.
    destruct Hin as [->|[->|[->|[->|[]]]]].
    + rewrite !ensureStore_other by done. apply ensureStore_here.
    + apply ensureStore_here.
    + rewrite !ensureStore_other by done. apply ensureStore_here.
    + rewrite ensureStore_other by done. apply ensureStore_here.
  - intros name st H. by do 4 apply ensureStore_old.
  - intros name Hnone Hsome. rewrite storeNames_eq. set_unfold.
    destruct (decide (name = "paint-sets")) as [->|?]; [tauto|].
    destruct (decide (name = "image-file")) as [->|?]; [tauto|].
    destruct (decide (name = "color-picker")) as [->|?]; [tauto|].
    destruct (decide (name = "paint-mixes")) as [->|?]; [tauto|].
    rewrite !ensureStore_other, Hnone in Hsome by done.
    by destruct Hsome.
  - intros name st Hnone Hst.
    destruct (decide (name = "paint-sets")) as [->|?].
    { rewrite !ensureStore_other in Hst by done.
      rewrite ensureStore_new in Hst by done. by injection Hst as <-. }
    destruct (decide (name = "color-picker")) as [->|?].
    { rewrite !ensureStore_other in Hst by done.
      rewrite ensureStore_new in Hst by (by rewrite ensureStore_other).
      by injection Hst as <-. }
    destruct (decide (name = "paint-mixes")) as [->|?].
    { rewrite !ensureStore_other in Hst by done.
      rewrite ensureStore_new in Hst by (by rewrite !ensureStore_other).
      by injection Hst as <-. }
    destruct (decide (name = "image-file")) as [->|?].
    { rewrite ensureStore_new in Hst by (by rewrite !ensureStore_other).
      by injection Hst as <-. }
    rewrite !ensureStore_other in Hst by done. congruence.
  - rewrite upgrade_eq.
    set (db1 := ensureStore "paint-sets" paintSetStore db).
    set (db2 := ensureStore "color-picker" (emptyStore None) db1).
    set (db3 := ensureStore "paint-mixes" (emptyStore (Some "id")) db2).
    set (db4 := ensureStore "image-file" (emptyStore None) db3).
    assert (H1 : is_Some (db4 !! "paint-sets")).
    { unfold db4, db3, db2. rewrite !ensureStore_other by done.
      apply ensureStore_here. }
    assert (H2 : is_Some (db4 !! "color-picker")).
    { unfold db4, db3. rewrite !ensureStore_other by done.
      apply ensureStore_here. }
    assert (H3 : is_Some (db4 !! "paint-mixes")).
    { unfold db4. rewrite !ensureStore_other by done.
      apply ensureStore_here. }
    assert (H4 : is_Some (db4 !! "image-file")) by apply ensureStore_here.
    rewrite (ensureStore_present "paint-sets") by done.
    rewrite (ensureStore_present "color-picker") by done.
    rewrite (ensureStore_present "paint-mixes") by done.
    by rewrite (ensureStore_present "image-file").
Qed.

(** The callback at a database without any store. *)
Lemma upgrade_idempotent_witness :
  ∃ db', upgrade ∅ = Ok db' ∧ upgrade db' = Ok db'.
Proof.
  destruct (upgrade_idempotent ∅) as (db' & H1 & _ & _ & _ & _ & H2).
  exists db'. split; [exact H1 | exact H2].
Defined.

(** Opening the database a second time finds the version it asks for and
    runs no upgrade. *)
Lemma dbPromise_again st st' : dbPromise st = Ok st' → dbPromise st' = Ok st'.
Proof.
  unfold dbPromise, openDB.
  destruct (2 <? version st)%N eqn:E1; [done|].
  destruct (version st <? 2)%N eqn:E2.
  - rewrite upgrade_eq. cbn. by intros [= <-].
  - intros [= <-]. by rewrite E1, E2.
Qed.

(** A database that was never opened gets version 2 and the four stores. *)
Lemma dbPromise_fresh :
  ∃ db, dbPromise {| version := 0; stores := ∅ |}
        = Ok {| version := 2; stores := db |}
        ∧ ∀ name, name ∈ storeNames → is_Some (db !! name).
Proof.
  eexists. split.
  - unfold dbPromise, openDB. cbn [version stores].
    change (2 <? 0)%N with false. change (0 <? 2)%N with true.
    cbv iota. by rewrite upgrade_eq.
  - intros name Hin. rewrite storeNames_eq in Hin. set_unfold in Hin.
    destruct Hin as [->|[->|[->|[->|[]]]]];
      rewrite ?ensureStore_other by done; apply ensureStore_here.
Qed.

End DBFacts.

(** ** The paint set chooser *)

Section ChooserFacts.
Import PaintSetChooser.

Variable PAINT_BRAND_LABELS : PaintType → PaintBrand → option Label.

(** The guard lets a chosen paint type with at least one brand through. *)
Lemma options_unfold t sets :
  t ≠ 0%Z → sets ≠ [] →
  getStoreBoughtPaintSetOptions PAINT_BRAND_LABELS (Some t) sets
  = customPaintSetOption :: (brandOption PAINT_BRAND_LABELS t <$> sets).
Proof.
  intros Ht Hsets. unfold getStoreBoughtPaintSetOptions, noType.
  destruct (Z.eqb_spec t 0) as [?|_]; [done|].
  destruct sets as [|e sets]; [done|]. reflexivity.
Qed.

(** C9: for a paint type that is defined and, as a member of the enum, not
    0, and a non-empty map of store-bought sets the options start with the
    custom paint set option (value 0, label ['Custom paint set']) and go on
    with one option per brand, in the order of the map, whose value is the
    brand, whose label is the brand's full text and whose children are one
    option per set of the brand, with the name of the set as value and label;
    without a paint type, or with an empty map, there is no option. *)
Theorem getStoreBoughtPaintSetOptions_spec
    (type : option PaintType)
    (sets : Js.Map PaintBrand (Js.Map string StoreBoughtPaintSet)) :
  (∀ t, type = Some t → t ≠ 0%Z → sets ≠ [] →
     ∃ rest,
       getStoreBoughtPaintSetOptions PAINT_BRAND_LABELS type sets
         = customPaintSetOption :: rest
       ∧ Js.get customPaintSetOption "value" = Js.Num 0
       ∧ Js.get customPaintSetOption "label" = Js.Str "Custom paint set"
       ∧ length rest = Js.size sets
       ∧ ∀ i brand inner, Js.entries sets !! i = Some (brand, inner) →
           ∃ option children,
             rest !! i = Some option
             ∧ Js.get option "value" = Js.Num brand
             ∧ Js.get option "label" = brandLabel PAINT_BRAND_LABELS t brand
             ∧ Js.get option "children" = Js.Arr children
             ∧ length children = Js.size inner
             ∧ ∀ j s, Js.values inner !! j = Some s →
                 children !! j
                 = Some (Js.Obj [("value", Js.Str (name s));
                                 ("label", Js.Str (name s))]))
  ∧ (type = None →
       getStoreBoughtPaintSetOptions PAINT_BRAND_LABELS type sets = [])
  ∧ (sets = [] →
       getStoreBoughtPaintSetOptions PAINT_BRAND_LABELS type sets = []).
Proof.
  split; [|split].
  - intros t -> Ht Hsets.
    exists (brandOption PAINT_BRAND_LABELS t <$> sets).
    split; [by apply options_unfold|].
    do 2 (split; [reflexivity|]).
    split; [apply length_fmap|].
    intros i brand inner Hi. unfold Js.entries in Hi.
    exists (brandOption PAINT_BRAND_LABELS t (brand, inner)),
           (setOption <$> Js.values inner).
    split.
    { rewrite list_lookup_fmap.
      exact (f_equal (fmap (brandOption PAINT_BRAND_LABELS t)) Hi). }
    do 3 (split; [reflexivity|]).
    split; [unfold Js.values, Js.size; by rewrite !length_fmap|].
    intros j s Hj. rewrite list_lookup_fmap.
    exact (f_equal (fmap setOption) Hj).
  - by intros ->.
  - intros ->. unfold getStoreBoughtPaintSetOptions. cbn.
    by rewrite orb_true_r.
Qed.

(** A record of the [PaintSetDefinition] shape has the four fields and no
    other. *)
Lemma isPaintSetDefinition_keys v k :
  isPaintSetDefinition v = true →
  k ∈ Js.keys v ↔ k ∈ ["type"; "brands"; "storeBoughtPaintSet"; "colors"].
Proof.
  unfold isPaintSetDefinition. rewrite !andb_true_iff.
  intros [[[[Hk _] _] _] _]. apply bool_decide_eq_true in Hk.
  by rewrite Hk.
Qed.

(** A record of this shape has no [timestamp], the field the ['paint-sets']
    store is indexed by: stored as it is, it has no key in the
    ['by-timestamp'] index. *)
Lemma isPaintSetDefinition_no_timestamp v :
  isPaintSetDefinition v = true → Js.get v "timestamp" = Js.Undefined.
Proof.
  intros H. pose proof (isPaintSetDefinition_keys v "timestamp" H) as Hk.
  destruct v as [| | | |props]; try done. cbn in *.
  destruct (Js.assoc "timestamp" props) as [x|] eqn:E; [|done].
  exfalso. assert (Hin : "timestamp" ∈ props.*1).
  { clear -E. induction props as [|[k w] props IH]; [done|].
    cbn in E. case_decide as Hd; [subst k; by left | right; by apply IH]. }
  apply Hk in Hin. set_unfold in Hin.
  destruct Hin as [?|[?|[?|[?|[]]]]]; discriminate.
Qed.

End ChooserFacts.

(** The options theorem at paint type 1 with one brand that has one set. *)
Lemma getStoreBoughtPaintSetOptions_spec_witness :
  let labels : PaintSetChooser.PaintType → PaintSetChooser.PaintBrand
               → option PaintSetChooser.Label :=
    fun _ _ => Some {| PaintSetChooser.fullText := "Brand" |} in
  let sets :=
    [(1%Z, [("Set of 12",
             {| PaintSetChooser.name := "Set of 12";
                PaintSetChooser.colors := [1; 2]%Z |})])] in
  ∃ rest,
    PaintSetChooser.getStoreBoughtPaintSetOptions labels (Some 1%Z) sets
      = PaintSetChooser.customPaintSetOption :: rest
    ∧ length rest = 1.
Proof.
  intros labels sets.
  destruct (getStoreBoughtPaintSetOptions_spec labels (Some 1%Z) sets)
    as [H _].
  destruct (H 1%Z eq_refl ltac:(done) ltac:(done))
    as (rest & H1 & _ & _ & H2 & _).
  exists rest. split; [exact H1 | exact H2].
Defined.

(** ** The Spectral Mixer *)

Section MixerFacts.
Import Engine.
Local Open Scope R_scope.

Variable KS_MAX : R.

Lemma TOLERANCE_pos : 0 < TOLERANCE.
Proof. unfold TOLERANCE. lra. Qed.

Lemma clamp01_unit x : inUnit (clamp01 x).
Proof.
  unfold clamp01, inUnit.
  destruct (Rlt_dec x 0); [lra|]. destruct (Rlt_dec 1 x); lra.
Qed.

Lemma clamp01_id x : inUnit x → clamp01 x = x.
Proof.
  unfold clamp01, inUnit. intros H.
  destruct (Rlt_dec x 0); [lra|]. destruct (Rlt_dec 1 x); lra.
Qed.

(** The division of step 1 is never by zero. *)
Lemma ksOfReflectance_eq r : ksOfReflectance KS_MAX r = Ok (ksValue KS_MAX r).
Proof.
  unfold ksOfReflectance, ksValue, checkedDiv.
  destruct (Req_dec_T r 0) as [?|Hr]; [done|].
  destruct (Req_dec_T (2 * r) 0); [lra|done].
Qed.

Lemma ksValue_0 : ksValue KS_MAX 0 = KS_MAX.
Proof. unfold ksValue. destruct (Req_dec_T 0 0); [done|lra]. Qed.

Lemma ksValue_1 : ksValue KS_MAX 1 = 0.
Proof. unfold ksValue. destruct (Req_dec_T 1 0); [lra|]. field. Qed.

Lemma ksValue_nonneg r : 0 <= KS_MAX → inUnit r → 0 <= ksValue KS_MAX r.
Proof.
  unfold ksValue, inUnit. intros HM Hr.
  destruct (Req_dec_T r 0); [done|].
  apply Rmult_le_pos; [nra|].
  left. apply Rinv_0_lt_compat. lra.
Qed.

(** The square root of step 3, in closed form. *)
Lemma sqrt_ks r :
  0 < r <= 1 →
  let ks := (1 - r) * (1 - r) / (2 * r) in
  sqrt (ks * ks + 2 * ks) = (1 - r * r) / (2 * r).
Proof.
  intros Hr ks.
  assert (Hy : 0 <= (1 - r * r) / (2 * r)).
  { apply Rmult_le_pos; [nra|]. left. apply Rinv_0_lt_compat. lra. }
  assert (Hsq : (1 - r * r) / (2 * r) * ((1 - r * r) / (2 * r))
                = ks * ks + 2 * ks).
  { unfold ks. field. lra. }
  apply sqrt_lem_1; [|exact Hy|exact Hsq].
  rewrite <- Hsq. by apply Rmult_le_pos.
Qed.

(** Step 3 on a K/S that is not negative: the radicand is not negative, and
    the value is within (0,1] before it is clamped. *)
Lemma unclamped_unit ks :
  0 <= ks → 0 < 1 + ks - sqrt (ks * ks + 2 * ks) <= 1.
Proof.
  intros Hks.
  assert (H0 : 0 <= ks * ks + 2 * ks) by nra.
  assert (Hlo : ks <= sqrt (ks * ks + 2 * ks)).
  { rewrite <- (sqrt_square ks) at 1 by done. apply sqrt_le_1_alt. nra. }
  assert (Hhi : sqrt (ks * ks + 2 * ks) < ks + 1).
  { rewrite <- (sqrt_square (ks + 1)) by lra.
    apply sqrt_lt_1_alt. nra. }
  lra.
Qed.

Lemma reflectanceOfKs_nonneg ks :
  0 <= ks →
  reflectanceOfKs ks = Value (1 + ks - sqrt (ks * ks + 2 * ks)).
Proof.
  intros Hks. unfold reflectanceOfKs.
  destruct (Rlt_dec (ks * ks + 2 * ks) 0); [nra|].
  f_equal. apply clamp01_id. unfold inUnit.
  destruct (unclamped_unit ks Hks). lra.
Qed.

(** Whatever the K/S, step 3 leaves a reflectance or no number. *)
Lemma reflectanceOfKs_cases ks :
  reflectanceOfKs ks = NaN ∨ isReflectance (reflectanceOfKs ks).
Proof.
  unfold reflectanceOfKs. destruct (Rlt_dec _ _); [by left|].
  right. apply clamp01_unit.
Qed.

(** Steps 1 and 3 undo each other on (0,1]. *)
Lemma reflectance_roundtrip r :
  0 < r <= 1 → reflectanceOfKs (ksValue KS_MAX r) = Value r.
Proof.
  intros Hr.
  assert (Hks : 0 <= ksValue KS_MAX r).
  { unfold ksValue. destruct (Req_dec_T r 0); [lra|].
    apply Rmult_le_pos; [nra|]. left. apply Rinv_0_lt_compat. lra. }
  rewrite (reflectanceOfKs_nonneg _ Hks). f_equal.
  unfold ksValue. destruct (Req_dec_T r 0); [lra|].
  rewrite (sqrt_ks r Hr). field. lra.
Qed.

(** What comes back for the sentinel is within the tolerance of 0 exactly
    when the sentinel is at least the K/S of the tolerance itself. *)
Lemma sentinel_threshold :
  0 <= KS_MAX →
  1 + KS_MAX - sqrt (KS_MAX * KS_MAX + 2 * KS_MAX) <= TOLERANCE
  ↔ (1 - TOLERANCE) * (1 - TOLERANCE) / (2 * TOLERANCE) <= KS_MAX.
Proof.
  intros HM. pose proof TOLERANCE_pos as Ht.
  assert (Ht1 : TOLERANCE < 1) by (unfold TOLERANCE; lra).
  assert (H0 : 0 <= KS_MAX * KS_MAX + 2 * KS_MAX) by nra.
  assert (Hdiv : (1 - TOLERANCE) * (1 - TOLERANCE) / (2 * TOLERANCE) <= KS_MAX
                 ↔ (1 - TOLERANCE) * (1 - TOLERANCE)
                   <= KS_MAX * (2 * TOLERANCE)).
  { split; intros H.
    - apply (Rmult_le_compat_r (2 * TOLERANCE)) in H; [|lra].
      unfold Rdiv in H. rewrite Rmult_assoc, Rinv_l, Rmult_1_r in H by lra.
      exact H.
    - apply (Rmult_le_reg_r (2 * TOLERANCE)); [lra|].
      unfold Rdiv. rewrite Rmult_assoc, Rinv_l, Rmult_1_r by lra. exact H. }
  rewrite Hdiv. split; intros H.
  - assert (Hle : 1 + KS_MAX - TOLERANCE
                  <= sqrt (KS_MAX * KS_MAX + 2 * KS_MAX)) by lra.
    assert (Hsq : (1 + KS_MAX - TOLERANCE) * (1 + KS_MAX - TOLERANCE)
                  <= KS_MAX * KS_MAX + 2 * KS_MAX).
    { rewrite <- (sqrt_sqrt (KS_MAX * KS_MAX + 2 * KS_MAX) H0).
      apply Rmult_le_compat; lra. }
    nra.
  - assert (Hle : 1 + KS_MAX - TOLERANCE
                  <= sqrt (KS_MAX * KS_MAX + 2 * KS_MAX)).
    { rewrite <- (sqrt_square (1 + KS_MAX - TOLERANCE)) by lra.
      apply sqrt_le_1_alt. nra. }
    lra.
Qed.

Lemma findPaint_None pool i :
  findPaint pool i = None ↔ i ∉ paintId <$> pool.
Proof.
  unfold findPaint. induction pool as [|p pool IH]; cbn.
  - split; [intros _; apply not_elem_of_nil | done].
  - rewrite not_elem_of_cons. case_bool_decide as E.
    + split; [done|]. intros [? _]. congruence.
    + rewrite IH. split; [intros ?; split; [congruence|done] | by intros [_ ?]].
Qed.

Lemma findPaint_Some pool p :
  NoDup (paintId <$> pool) → p ∈ pool → findPaint pool (paintId p) = Some p.
Proof.
  unfold findPaint. induction pool as [|q pool IH]; cbn.
  - intros _ H. by apply elem_of_nil in H.
  - intros Hnd Hin. apply NoDup_cons in Hnd as [Hq Hnd].
    apply elem_of_cons in Hin as [->|Hin].
    + by rewrite bool_decide_eq_true_2.
    + case_bool_decide as E; [|by apply IH].
      exfalso. apply Hq. rewrite E. apply list_elem_of_fmap. eauto.
Qed.

Lemma knownIds_true pool (ratios : MixRatio) :
  knownIds pool ratios = true
  ↔ ∀ e, e ∈ ratios → fst e ∈ paintId <$> pool.
Proof.
  unfold knownIds. rewrite forallb_forall. split.
  - intros H e He. apply list_elem_of_In in He. specialize (H e He).
    apply bool_decide_eq_true in H.
    destruct (decide (fst e ∈ paintId <$> pool)) as [?|Hn]; [done|].
    apply findPaint_None in Hn. rewrite Hn in H. by destruct H.
  - intros H e He. apply list_elem_of_In in He. specialize (H e He).
    apply bool_decide_eq_true.
    destruct (findPaint pool (fst e)) eqn:E; [eauto|].
    apply findPaint_None in E. done.
Qed.

Lemma knownIds_false pool (ratios : MixRatio) :
  knownIds pool ratios = false
  ↔ ∃ e, e ∈ ratios ∧ fst e ∉ paintId <$> pool.
Proof.
  split.
  - intros H. induction ratios as [|e ratios IH]; [done|].
    cbn in H. apply andb_false_iff in H as [H|H].
    + exists e. split; [left|]. apply bool_decide_eq_false in H.
      apply findPaint_None. destruct (findPaint pool (fst e)); [|done].
      exfalso. apply H. eauto.
    + destruct (IH H) as (e' & He' & Hn). exists e'. split; [by right|done].
  - intros (e & He & Hn). apply not_true_iff_false. intros Ht.
    apply Hn. by apply (proj1 (knownIds_true pool ratios) Ht).
Qed.

(** With every id known, step 2 raises nothing. *)
Lemma mixedKs_eq pool ratios b :
  knownIds pool ratios = true →
  mixedKs KS_MAX pool ratios b = Ok (mixedKsValue KS_MAX pool ratios b).
Proof.
  induction ratios as [|[i w] ratios IH]; [done|].
  cbn. intros H. apply andb_true_iff in H as [Hi H].
  apply bool_decide_eq_true in Hi as [p Hp]. cbn in Hp. rewrite Hp.
  rewrite ksOfReflectance_eq. cbn. by rewrite (IH H).
Qed.

Lemma mixBands_eq pool ratios bs :
  knownIds pool ratios = true →
  mixBands KS_MAX pool ratios bs
  = Ok ((fun b => reflectanceOfKs (mixedKsValue KS_MAX pool ratios b)) <$> bs).
Proof.
  intros H. induction bs as [|b bs IH]; [done|].
  cbn. rewrite (mixedKs_eq _ _ _ H). cbn. by rewrite IH.
Qed.

(** What [mix] returns on an input it accepts. *)
Lemma mix_accepted pool ratios :
  Rabs (totalWeight ratios - 1) <= TOLERANCE →
  knownIds pool ratios = true →
  mix KS_MAX pool ratios
  = Ok ((fun b => reflectanceOfKs (mixedKsValue KS_MAX pool ratios b))
          <$> seq 0 BANDS).
Proof.
  intros Hsum Hids. unfold mix.
  destruct (Rlt_dec _ _); [lra|]. rewrite Hids.
  exact (mixBands_eq _ _ _ Hids).
Qed.

(** The samples of an accepted input, one by one. *)
Lemma mixed_sample (f : nat → R) i x :
  ((fun b => reflectanceOfKs (f b)) <$> seq 0 BANDS) !! i = Some x →
  (i < BANDS)%nat ∧ x = reflectanceOfKs (f i).
Proof.
  rewrite list_lookup_fmap.
  destruct (seq 0 BANDS !! i) as [i'|] eqn:Hi; [|done].
  apply lookup_seq in Hi as [-> Hlt]. by intros [= <-].
Qed.

(** With weights that are not negative the mixed K/S is not negative. *)
Lemma mixedKsValue_nonneg pool (ratios : MixRatio) b :
  0 <= KS_MAX →
  (∀ p, p ∈ pool → Forall inUnit (spectrum p)) →
  (∀ e, e ∈ ratios → 0 <= snd e) →
  0 <= mixedKsValue KS_MAX pool ratios b.
Proof.
  intros HM Hpool. induction ratios as [|[i w] ratios IH]; intros Hw.
  - cbn. lra.
  - cbn. assert (0 <= mixedKsValue KS_MAX pool ratios b) as Hacc.
    { apply IH. intros e He. apply Hw. by right. }
    fold (mixedKsValue KS_MAX pool ratios b).
    destruct (findPaint pool i) as [p|] eqn:Hp; [|done].
    assert (0 <= w) by (apply (Hw (i, w)); left).
    assert (0 <= ksValue KS_MAX (band p b)).
    { apply ksValue_nonneg; [done|]. unfold band.
      destruct (spectrum p !! b) as [y|] eqn:Hy; cbn; [|unfold inUnit; lra].
      apply (proj1 (Forall_lookup _ _) (Hpool p
        (proj2 (list_elem_of_In _ _) (proj1 (find_some _ _ Hp)))) b y Hy). }
    nra.
Qed.


Lemma single_weight (i : PaintId) : Rabs (totalWeight [(i, 1)] - 1) <= TOLERANCE.
Proof.
  cbn. replace (1 + 0 - 1) with 0 by lra. rewrite Rabs_R0.
  left. apply TOLERANCE_pos.
Qed.

(** In exact arithmetic, and with a sentinel that is not negative, mixing
    one paint of the dataset alone at ratio 1 returns, in every band where
    the paint reflects anything at all, exactly the reflectance of the
    paint.  In a band where the paint reflects nothing it returns what step 3
    makes of the sentinel, which is above 0 and is within 1e-6 of 0 exactly
    when the sentinel is at least (1 - 1e-6)^2 / (2e-6), a little less than
    500000; with such a sentinel the whole spectrum is within 1e-6 of the
    paint's own. *)
Lemma mix_identity_exact pool p :
  0 <= KS_MAX →
  NoDup (paintId <$> pool) →
  p ∈ pool →
  validSpectrum (spectrum p) →
  ∃ s,
    mix KS_MAX pool [(paintId p, 1)] = Ok s
    ∧ length s = BANDS
    ∧ (∀ b y, spectrum p !! b = Some y → 0 < y → s !! b = Some (Value y))
    ∧ (∀ b, spectrum p !! b = Some 0 →
         ∃ x, s !! b = Some (Value x)
              ∧ 0 < x
              ∧ (Rabs (x - 0) <= TOLERANCE
                 ↔ (1 - TOLERANCE) * (1 - TOLERANCE) / (2 * TOLERANCE)
                   <= KS_MAX))
    ∧ ((1 - TOLERANCE) * (1 - TOLERANCE) / (2 * TOLERANCE) <= KS_MAX →
       Forall2 (fun x y => ∃ r, x = Value r ∧ Rabs (r - y) <= TOLERANCE)
         s (spectrum p)).
Proof.
  intros HM Hnd Hin [Hlen Hunit].
  pose proof (findPaint_Some _ _ Hnd Hin) as Hp.
  assert (Hids : knownIds pool [(paintId p, 1)] = true).
  { cbn. rewrite Hp. rewrite bool_decide_eq_true_2; eauto. }
  set (s := (fun b => reflectanceOfKs
                        (mixedKsValue KS_MAX pool [(paintId p, 1)] b))
              <$> seq 0 BANDS).
  assert (Hs : ∀ b y, spectrum p !! b = Some y →
                      s !! b = Some (reflectanceOfKs (ksValue KS_MAX y))).
  { intros b y Hy. unfold s. rewrite list_lookup_fmap.
    assert (Hb : (b < BANDS)%nat).
    { rewrite <- Hlen. by apply lookup_lt_Some in Hy. }
    rewrite (lookup_seq_lt _ _ _ Hb). cbn. rewrite Hp.
    unfold band. rewrite Hy. cbn. do 2 f_equal. lra. }
  assert (Hzero : ∃ x, reflectanceOfKs (ksValue KS_MAX 0) = Value x
                       ∧ 0 < x <= 1
                       ∧ x = 1 + KS_MAX - sqrt (KS_MAX * KS_MAX + 2 * KS_MAX)).
  { rewrite ksValue_0, (reflectanceOfKs_nonneg _ HM). eexists.
    split; [done|]. split; [|done]. by apply unclamped_unit. }
  exists s. split; [apply mix_accepted; [apply single_weight|exact Hids]|].
  split; [unfold s; by rewrite length_fmap, length_seq|].
  split; [|split].
  - intros b y Hy Hpos. rewrite (Hs b y Hy). f_equal.
    apply reflectance_roundtrip.
    pose proof (proj1 (Forall_lookup _ _) Hunit b y Hy) as [_ ?]. lra.
  - intros b Hb. destruct Hzero as (x & Hx & [Hx0 Hx1] & Hxe).
    exists x. rewrite (Hs b 0 Hb), Hx. split; [done|]. split; [done|].
    rewrite Rminus_0_r, Rabs_pos_eq by lra. rewrite Hxe.
    by apply sentinel_threshold.
  - intros Hthr. apply Forall2_same_length_lookup. split.
    { unfold s. by rewrite length_fmap, length_seq. }
    intros b x y Hx Hy. rewrite (Hs b y Hy) in Hx. injection Hx as <-.
    pose proof (proj1 (Forall_lookup _ _) Hunit b y Hy) as [Hy0 Hy1].
    destruct (Req_dec_T y 0) as [->|Hne].
    + destruct Hzero as (x & Hx & [Hx0 Hx1] & Hxe). exists x.
      split; [done|]. rewrite Rminus_0_r, Rabs_pos_eq by lra. rewrite Hxe.
      by apply sentinel_threshold.
    + exists y. split; [apply reflectance_roundtrip; lra|].
      rewrite Rminus_diag, Rabs_R0. left. apply TOLERANCE_pos.
Qed.

(** A band that reflects nothing has the finite sentinel as its K/S, a
    band that reflects everything has K/S 0, and step 1 divides by zero for
    no reflectance at all; so [mix] raises nothing on ratios that sum to 1
    within the tolerance over paints of the pool, and returns 36 samples.
    In exact arithmetic, for spectra within [0,1], bands 0 and 1 included,
    and with weights and a sentinel that are not negative, every sample is a
    reflectance within (0,1], already before it is clamped. *)
Lemma mixer_boundaries_exact :
  ksOfReflectance KS_MAX 0 = Ok KS_MAX
  ∧ ksOfReflectance KS_MAX 1 = Ok 0
  ∧ (∀ r, ∃ ks, ksOfReflectance KS_MAX r = Ok ks)
  ∧ ∀ pool (ratios : MixRatio),
      Rabs (totalWeight ratios - 1) <= TOLERANCE →
      (∀ e, e ∈ ratios → fst e ∈ paintId <$> pool) →
      ∃ s : list Sample,
        mix KS_MAX pool ratios = Ok s
        ∧ length s = BANDS
        ∧ ((∀ p, p ∈ pool → Forall inUnit (spectrum p)) →
           0 <= KS_MAX →
           (∀ e, e ∈ ratios → 0 <= snd e) →
           ∀ i x, s !! i = Some x →
             ∃ r ks, x = Value r
                     ∧ 0 <= ks
                     ∧ r = 1 + ks - sqrt (ks * ks + 2 * ks)
                     ∧ 0 < r <= 1).
Proof.
  split; [by rewrite ksOfReflectance_eq, ksValue_0|].
  split; [by rewrite ksOfReflectance_eq, ksValue_1|].
  split; [intros r; rewrite ksOfReflectance_eq; eauto|].
  intros pool ratios Hsum Hids.
  eexists. split; [apply mix_accepted; [done|by apply knownIds_true]|].
  split; [by rewrite length_fmap, length_seq|].
  intros Hpool HM Hw i x Hx. apply mixed_sample in Hx as [_ ->].
  pose proof (mixedKsValue_nonneg pool ratios i HM Hpool Hw) as Hks.
  exists (1 + mixedKsValue KS_MAX pool ratios i
          - sqrt (mixedKsValue KS_MAX pool ratios i
                  * mixedKsValue KS_MAX pool ratios i
                  + 2 * mixedKsValue KS_MAX pool ratios i)),
         (mixedKsValue KS_MAX pool ratios i).
  split; [by apply reflectanceOfKs_nonneg|]. split; [done|].
  split; [done|]. by apply unclamped_unit.
Qed.

End MixerFacts.



Section Binary64Facts.
Import PrimFloat.
Local Open Scope float_scope.

(** Running the check over the first [n] millionths. *)
Lemma gridStep_iter (n : N) :
  fst (N.iter n Binary64.gridStep (0%Z, true)) = Z.of_N n
  ∧ (snd (N.iter n Binary64.gridStep (0%Z, true)) = true →
     ∀ k, (0 ≤ k < Z.of_N n)%Z → Binary64.gridCheck k = true).
Proof.
  induction n as [|n [IHk IHok]] using N.peano_ind.
  - split; [done|]. intros _ k Hk. lia.
  - rewrite N.iter_succ. unfold Binary64.gridStep at 1 3. cbn [fst snd].
    rewrite IHk. split; [lia|].
    intros Hok. apply andb_true_iff in Hok as [Hprev Hn].
    intros k Hk. destruct (decide (k = Z.of_N n)) as [->|Hne]; [done|].
    apply (IHok Hprev). lia.
Qed.

(** Every reflectance of six decimals passes the check. *)
Lemma grid_checked (k : Z) :
  (0 ≤ k ≤ 1000000)%Z → Binary64.gridCheck k = true.
Proof.
  intros Hk. apply (proj2 (gridStep_iter 1000001)); [by vm_compute|lia].
Qed.

Lemma alone_on_grid (y : float) :
  Binary64.onGrid y →
  Binary64.inUnit y = true
  ∧ Binary64.within (Binary64.alone Binary64.sentinel y) y = true
  ∧ Binary64.inUnit (Binary64.alone Binary64.sentinel y) = true.
Proof.
  intros (k & Hk & ->). pose proof (grid_checked k Hk) as H.
  unfold Binary64.gridCheck in H.
  apply andb_true_iff in H as [H H3]. by apply andb_true_iff in H as [H1 H2].
Qed.

Lemma binary64_findPaint (pool : list Binary64.Paint) p :
  NoDup (Binary64.paintId <$> pool) → p ∈ pool →
  Binary64.findPaint pool (Binary64.paintId p) = Some p.
Proof.
  unfold Binary64.findPaint. induction pool as [|q pool IH]; cbn.
  - intros _ H. by apply elem_of_nil in H.
  - intros Hnd Hin. apply NoDup_cons in Hnd as [Hq Hnd].
    apply elem_of_cons in Hin as [->|Hin].
    + by rewrite Nat.eqb_refl.
    + destruct (Nat.eqb_spec (Binary64.paintId q) (Binary64.paintId p))
        as [E|_]; [|by apply IH].
      exfalso. apply Hq. rewrite E. apply list_elem_of_fmap. eauto.
Qed.

(** What [mix] returns for one paint of the pool alone at ratio 1. *)
Lemma mix_alone (KS_MAX : float) (pool : list Binary64.Paint) p :
  NoDup (Binary64.paintId <$> pool) → p ∈ pool →
  Binary64.mix KS_MAX pool [(Binary64.paintId p, Binary64.one)]
  = Ok ((fun b => Binary64.alone KS_MAX (Binary64.band p b))
          <$> seq 0 Engine.BANDS).
Proof.
  intros Hnd Hin. pose proof (binary64_findPaint pool p Hnd Hin) as Hp.
  unfold Binary64.mix.
  change (Binary64.TOLERANCE
          <? abs (Binary64.totalWeight
                    [(Binary64.paintId p, Binary64.one)] - 1))
    with false.
  unfold Binary64.knownIds. cbn [forallb fst].
  rewrite Hp, bool_decide_eq_true_2 by eauto. cbn [andb negb].
  f_equal. apply list_fmap_ext. intros _ b _.
  unfold Binary64.alone. cbn [Binary64.mixedKs]. by rewrite Hp.
Qed.



End Binary64Facts.

Section MixerClaims.
Import Engine.
Local Open Scope R_scope.

(** One paint with reflectances of six decimals, alone at ratio 1, in
    floating point. *)
Lemma mix_alone_on_grid (pool : list Binary64.Paint) p :
  NoDup (Binary64.paintId <$> pool) → p ∈ pool →
  length (Binary64.spectrum p) = BANDS →
  Forall Binary64.onGrid (Binary64.spectrum p) →
  ∃ s,
    Binary64.mix Binary64.sentinel pool
      [(Binary64.paintId p, Binary64.one)] = Ok s
    ∧ length s = BANDS
    ∧ Forall2 (fun x y => Binary64.within x y = true) s (Binary64.spectrum p)
    ∧ Forall (fun x => Binary64.inUnit x = true) s.
Proof.
  intros Hnd Hin Hlen Hgrid. eexists.
  split; [by apply mix_alone|].
  split; [by rewrite length_fmap, length_seq|].
  assert (Hband : ∀ b, (b < BANDS)%nat →
                       Binary64.onGrid (Binary64.band p b)).
  { intros b Hb. unfold Binary64.band.
    apply (proj1 (Forall_forall _ _) Hgrid), list_elem_of_In, nth_In.
    by rewrite Hlen. }
  split.
  - apply Forall2_same_length_lookup. split.
    { by rewrite length_fmap, length_seq. }
    intros b x y Hx Hy. rewrite list_lookup_fmap in Hx.
    destruct (seq 0 BANDS !! b) as [b'|] eqn:Hb; [|done].
    apply lookup_seq in Hb as [-> Hlt]. injection Hx as <-.
    assert (Binary64.band p b = y) as Hyb.
    { unfold Binary64.band. by apply nth_lookup_Some with (d := Binary64.zero). }
    rewrite <- Hyb. by apply alone_on_grid, Hband.
  - apply Forall_fmap, Forall_forall. intros b Hb.
    apply elem_of_seq in Hb. cbn. apply alone_on_grid, Hband. lia.
Qed.



End MixerClaims.



(** ** The colour difference *)

Section LabFacts.
Import Engine.
Local Open Scope R_scope.

Lemma squares_nonneg (u v w : R) : 0 <= u * u + v * v + w * w.
Proof. nra. Qed.

Lemma squares_zero (u v w : R) :
  u * u + v * v + w * w = 0 → u = 0 ∧ v = 0 ∧ w = 0.
Proof. intros H. repeat split; nra. Qed.

(** C4: the colour difference is the same in both directions, it is 0 from a
    colour to itself, and it is 0 only between colours whose three
    components are equal. *)
Theorem labDistance_symmetric_zero (x y : Lab) :
  labDistance x y = labDistance y x
  ∧ labDistance x x = 0
  ∧ (labDistance x y = 0 ↔ L x = L y ∧ a x = a y ∧ b x = b y).
Proof.
  unfold labDistance. split; [f_equal; ring|]. split.
  - replace (_ + _ + _) with 0 by ring. apply sqrt_0.
  - split.
    + intros H. apply sqrt_eq_0 in H; [|apply squares_nonneg].
      apply squares_zero in H. lra.
    + intros (-> & -> & ->).
      replace (_ + _ + _) with 0 by ring. apply sqrt_0.
Qed.

End LabFacts.

(** ** The Mix Search Engine *)

#[global] Instance R_lexico_po : StrictOrder (@lexico R Engine.R_lexico).
Proof.
  split.
  - intros x H. exact (Rlt_irrefl x H).
  - intros x y z. apply Rlt_trans.
Qed.

(** *** The grid *)

Section GridFacts.
Import Engine.
Local Open Scope nat_scope.

Example subsets_of_three : subsets 2 [1; 2; 3] = [[1]; [2]; [3]; [1; 2]; [1; 3]; [2; 3]].
Proof. reflexivity. Qed.

Example grid_of_three_paints :
  compositions 3 4 = [[1; 1; 2]; [1; 2; 1]; [2; 1; 1]].
Proof. reflexivity. Qed.

Example fingerprint_sorts :
  fingerprint [(3, (1, 2)); (1, (1, 2))] = [(1, (1, 2)); (3, (1, 2))].
Proof. reflexivity. Qed.

Lemma elem_of_flat_map {A B} (f : A → list B) (l : list A) (y : B) :
  y ∈ flat_map f l ↔ ∃ x, x ∈ l ∧ y ∈ f x.
Proof.
  rewrite list_elem_of_In, in_flat_map. split.
  - intros (x & Hx & Hy). exists x. by rewrite !list_elem_of_In.
  - intros (x & Hx & Hy). exists x. by rewrite <- !list_elem_of_In.
Qed.

(** A subset of size [k] has [k] elements, all of them from the list. *)
Lemma subsetsOfSize_spec {A} k (l sub : list A) :
  sub ∈ subsetsOfSize k l → length sub = k ∧ ∀ x, x ∈ sub → x ∈ l.
Proof.
  revert k sub. induction l as [|y l IH]; intros [|k] sub; cbn.
  - intros H. apply list_elem_of_singleton in H as ->. split; [done|].
    intros x Hx. by apply elem_of_nil in Hx.
  - intros H. by apply elem_of_nil in H.
  - intros H. apply list_elem_of_singleton in H as ->. split; [done|].
    intros x Hx. by apply elem_of_nil in Hx.
  - rewrite elem_of_app, list_elem_of_fmap.
    intros [(sub' & -> & Hsub)|Hsub].
    + destruct (IH k sub' Hsub) as [Hl Hin]. split; [cbn; lia|].
      intros x Hx. apply elem_of_cons in Hx as [->|Hx]; [by left|].
      right. by apply Hin.
    + destruct (IH (S k) sub Hsub) as [Hl Hin]. split; [done|].
      intros x Hx. right. by apply Hin.
Qed.

Lemma subsets_spec {A} maxPaints (l sub : list A) :
  sub ∈ subsets maxPaints l → 1 ≤ length sub ∧ ∀ x, x ∈ sub → x ∈ l.
Proof.
  unfold subsets. rewrite elem_of_flat_map. intros (k & Hk & Hsub).
  apply elem_of_seq in Hk. apply subsetsOfSize_spec in Hsub as [Hl Hin].
  split; [lia|done].
Qed.

(** A grid point for [n] paints gives each of them a share of the steps. *)
Lemma compositions_spec n steps ks :
  ks ∈ compositions n steps →
  length ks = n ∧ sum_list ks = steps ∧ (1 ≤ n → 1 ≤ steps).
Proof.
  revert steps ks. induction n as [|n IH]; intros steps ks; cbn.
  - destruct steps; [|intros H; by apply elem_of_nil in H].
    intros H. apply list_elem_of_singleton in H as ->.
    split; [done|]. split; [done|lia].
  - rewrite elem_of_flat_map. intros (k & Hk & Hks).
    apply elem_of_seq in Hk.
    apply list_elem_of_fmap in Hks as (ks' & -> & Hks').
    destruct (IH _ _ Hks') as (Hl & Hs & _). cbn. repeat split; lia.
Qed.

Lemma totalWeight_perm (r1 r2 : MixRatio) :
  r1 ≡ₚ r2 → totalWeight r1 = totalWeight r2.
Proof.
  induction 1 as [|e r1 r2 _ IH|e1 e2 r|r1 r2 r3 _ IH1 _ IH2]; cbn.
  - done.
  - fold (totalWeight r1). fold (totalWeight r2). by rewrite IH.
  - fold (totalWeight r). lra.
  - congruence.
Qed.

Lemma totalWeight_zip (ids : list PaintId) (ks : list nat) steps :
  length ids = length ks →
  totalWeight (toRatios (zip ids ((fun k => (k, steps)) <$> ks)))
  = (INR (sum_list ks) / INR steps)%R.
Proof.
  revert ids. induction ks as [|k ks IH]; intros [|i ids]; cbn; try done.
  - intros _. unfold Rdiv. by rewrite Rmult_0_l.
  - intros [= Hl]. specialize (IH ids Hl).
    unfold totalWeight, toRatios in IH. rewrite IH, plus_INR.
    unfold toWeight, Rdiv. cbn. lra.
Qed.

(** The ratios of a grid point sum to 1 and are over paints of the subset. *)
Lemma gridKeys_spec steps (subset : list Paint) key :
  1 ≤ length subset →
  key ∈ gridKeys steps subset →
  totalWeight (toRatios key) = 1%R
  ∧ ∀ e, e ∈ toRatios key → fst e ∈ paintId <$> subset.
Proof.
  intros Hn. unfold gridKeys. rewrite list_elem_of_fmap.
  intros (ks & -> & Hks). apply compositions_spec in Hks as (Hl & Hs & Hpos).
  assert (Hperm : toRatios (fingerprint
                    (zip (paintId <$> subset) ((fun k => (k, steps)) <$> ks)))
                  ≡ₚ toRatios
                    (zip (paintId <$> subset) ((fun k => (k, steps)) <$> ks))).
  { unfold toRatios, fingerprint. apply fmap_Permutation.
    apply merge_sort_Permutation. }
  split.
  - rewrite (totalWeight_perm _ _ Hperm).
    rewrite totalWeight_zip by (by rewrite length_fmap).
    rewrite Hs. unfold Rdiv. apply Rinv_r.
    apply not_0_INR. specialize (Hpos Hn). lia.
  - intros e He. rewrite Hperm in He.
    unfold toRatios in He. apply list_elem_of_fmap in He as ([i q] & -> & He).
    cbn. by apply elem_of_zip_l in He.
Qed.

End GridFacts.

Section SearchFacts.
Import Engine.

Variable KS_MAX : R.
Variable toResultColor : list Sample → ResultColor.
Variable lowerBound : list Paint → Lab → R.
Variable evict :
  gmap (list (PaintId * (nat * nat))) ResultColor →
  gmap (list (PaintId * (nat * nat))) ResultColor.
Variables (MAX_PAINTS GRID_STEPS : nat).

(** The eviction policy removes entries and does nothing else. *)
Hypothesis evict_subseteq : ∀ cache, evict cache ⊆ cache.

Implicit Types cache : gmap (list (PaintId * (nat * nat))) ResultColor.
Implicit Types best : list PaintMix.
Implicit Types dataset pool : list Paint.

Local Open Scope nat_scope.

Local Abbreviation valid := (cacheValid KS_MAX toResultColor).
Local Abbreviation cached' := (cached KS_MAX toResultColor evict).
Local Abbreviation evalPoints' := (evalPoints KS_MAX toResultColor evict).
Local Abbreviation searchSubsets' :=
  (searchSubsets KS_MAX toResultColor lowerBound evict GRID_STEPS).

(** The order of the best-N list, spelled out. *)
Lemma better_iff m1 m2 :
  better m1 m2 ↔
    (score m1 < score m2)%R
    ∨ (score m1 = score m2
       ∧ (length (ratios m1) < length (ratios m2)
          ∨ (length (ratios m1) = length (ratios m2)
             ∧ lexico (fst <$> ratios m1) (fst <$> ratios m2)))).
Proof. reflexivity. Qed.

Lemma notWorse_iff m1 m2 :
  notWorse m1 m2 ↔ better m1 m2 ∨ rank m1 = rank m2.
Proof.
  unfold notWorse, better.
  destruct (trichotomyT lexico (rank m1) (rank m2)) as [[H|H]|H].
  - split; [by left|]. intros _ H'.
    by apply (irreflexivity lexico (rank m1)); trans (rank m2).
  - split; [by right|]. intros _. rewrite H. apply irreflexivity, _.
  - split; [done|]. intros [H'|H'].
    + exfalso. by apply (irreflexivity lexico (rank m1)); trans (rank m2).
    + rewrite H' in H. by apply irreflexivity in H; [|apply _].
Qed.

#[local] Instance notWorse_trans : Transitive notWorse.
Proof.
  intros m1 m2 m3. rewrite !notWorse_iff. unfold better.
  intros [H12|H12] [H23|H23].
  - left. by trans (rank m2).
  - left. by rewrite <- H23.
  - left. by rewrite H12.
  - right. congruence.
Qed.

Lemma insertMix_elem_of m best x :
  x ∈ insertMix m best ↔ x = m ∨ x ∈ best.
Proof.
  induction best as [|m' best IH]; cbn.
  - rewrite list_elem_of_singleton. split; [by left|].
    intros [?|H]; [done|]. by apply elem_of_nil in H.
  - destruct (trichotomyT lexico (rank m) (rank m')) as [[?|?]|?];
      rewrite !elem_of_cons; try rewrite IH; tauto.
Qed.

Lemma insertMix_sorted m best :
  StronglySorted notWorse best → StronglySorted notWorse (insertMix m best).
Proof.
  induction best as [|m' best IH]; cbn; intros Hs.
  - apply StronglySorted_cons. split; [apply Forall_nil_2 | constructor].
  - apply StronglySorted_cons in Hs as [Hall Hs].
    destruct (trichotomyT lexico (rank m) (rank m')) as [[H|H]|H].
    + assert (Hm : notWorse m m') by (apply notWorse_iff; by left).
      apply StronglySorted_cons. split.
      * apply Forall_cons. split; [done|].
        eapply Forall_impl; [exact Hall|]. intros x Hx. by trans m'.
      * by apply StronglySorted_cons.
    + apply StronglySorted_cons. split; [|by apply IH].
      apply Forall_forall. intros x Hx.
      apply insertMix_elem_of in Hx as [->|Hx].
      * apply notWorse_iff. by right.
      * by apply (proj1 (Forall_forall _ _) Hall).
    + apply StronglySorted_cons. split; [|by apply IH].
      apply Forall_forall. intros x Hx.
      apply insertMix_elem_of in Hx as [->|Hx].
      * apply notWorse_iff. by left.
      * by apply (proj1 (Forall_forall _ _) Hall).
Qed.

Lemma take_sorted n best :
  StronglySorted notWorse best → StronglySorted notWorse (take n best).
Proof.
  intros Hs. rewrite <- (take_drop n best) in Hs.
  by apply StronglySorted_app_1_l in Hs.
Qed.

Lemma cacheValid_empty dataset : valid dataset ∅.
Proof. intros key c H. by rewrite lookup_empty in H. Qed.

Lemma poolOf_refl pool : poolOf pool pool.
Proof. by intros i p H. Qed.

(** A mix over ids of the pool is the same mix over the dataset. *)
Lemma knownIds_poolOf dataset pool (ratios : MixRatio) :
  poolOf dataset pool →
  knownIds pool ratios = true → knownIds dataset ratios = true.
Proof.
  intros Hp. unfold knownIds. rewrite !forallb_forall.
  intros H e He. specialize (H e He).
  apply bool_decide_eq_true in H as [p H]. apply bool_decide_eq_true.
  exists p. by apply Hp.
Qed.

Lemma mixedKsValue_poolOf dataset pool (ratios : MixRatio) b :
  poolOf dataset pool →
  knownIds pool ratios = true →
  mixedKsValue KS_MAX pool ratios b = mixedKsValue KS_MAX dataset ratios b.
Proof.
  intros Hp. induction ratios as [|[i w] ratios IH]; [done|].
  cbn. intros H. apply andb_true_iff in H as [Hi H].
  apply bool_decide_eq_true in Hi as [p Hi]. cbn in Hi.
  fold (mixedKsValue KS_MAX pool ratios b).
  fold (mixedKsValue KS_MAX dataset ratios b).
  by rewrite Hi, (Hp _ _ Hi), (IH H).
Qed.

Lemma colorOf_poolOf dataset pool key :
  poolOf dataset pool →
  knownIds pool (toRatios key) = true →
  colorOf KS_MAX toResultColor pool key
  = colorOf KS_MAX toResultColor dataset key.
Proof.
  intros Hp Hk. unfold colorOf, mix.
  destruct (Rlt_dec _ _); [done|].
  rewrite Hk, (knownIds_poolOf _ _ _ Hp Hk). cbn [negb].
  rewrite !mixBands_eq by (done || by apply (knownIds_poolOf _ pool)).
  assert (Heq :
    (fun b => reflectanceOfKs (mixedKsValue KS_MAX pool (toRatios key) b))
      <$> seq 0 BANDS
    = (fun b => reflectanceOfKs (mixedKsValue KS_MAX dataset (toRatios key) b))
      <$> seq 0 BANDS).
  { apply list_fmap_ext. intros _ b _.
    by rewrite (mixedKsValue_poolOf dataset pool). }
  by rewrite Heq.
Qed.

Lemma colorOf_known pool key c :
  colorOf KS_MAX toResultColor pool key = Ok c →
  knownIds pool (toRatios key) = true.
Proof.
  unfold colorOf, mix. destruct (Rlt_dec _ _); [done|].
  by destruct (knownIds pool (toRatios key)).
Qed.

(** Looking a key up in a cache of the dataset gives what computing gives. *)
Lemma cached_fst dataset pool key cache :
  valid dataset cache → poolOf dataset pool →
  knownIds pool (toRatios key) = true →
  fst (cached' pool key cache) = colorOf KS_MAX toResultColor pool key.
Proof.
  intros Hv Hp Hk. unfold cached.
  destruct (cache !! key) as [c|] eqn:E.
  - by rewrite (colorOf_poolOf dataset pool key Hp Hk), (Hv key c E).
  - by destruct (colorOf _ _ _ _).
Qed.

Lemma cached_snd dataset pool key cache :
  valid dataset cache → poolOf dataset pool →
  valid dataset (snd (cached' pool key cache)).
Proof.
  intros Hv Hp. unfold cached.
  destruct (cache !! key) as [c|] eqn:E; [done|].
  destruct (colorOf _ _ _ _) as [c|e] eqn:Ec; [|done].
  cbn. intros key' c' H.
  apply (lookup_weaken _ _ _ _ H) in evict_subseteq as H'.
  destruct (decide (key = key')) as [<-|Hne].
  - rewrite lookup_insert_eq in H'. injection H' as <-.
    by rewrite <- (colorOf_poolOf dataset pool key Hp (colorOf_known _ _ _ Ec)).
  - rewrite lookup_insert_ne in H' by done. by apply Hv.
Qed.

Lemma evalPoints_fst dataset pool target n keys best c1 c2 :
  valid dataset c1 → valid dataset c2 → poolOf dataset pool →
  (∀ key, key ∈ keys → knownIds pool (toRatios key) = true) →
  fst (evalPoints' pool target n keys best c1)
  = fst (evalPoints' pool target n keys best c2).
Proof.
  intros H1 H2 Hp. revert best c1 c2 H1 H2.
  induction keys as [|key keys IH]; [done|].
  intros best c1 c2 H1 H2 Hk. cbn.
  assert (Hkey : knownIds pool (toRatios key) = true) by (apply Hk; by left).
  pose proof (cached_fst dataset pool key c1 H1 Hp Hkey) as F1.
  pose proof (cached_fst dataset pool key c2 H2 Hp Hkey) as F2.
  pose proof (cached_snd dataset pool key c1 H1 Hp) as S1.
  pose proof (cached_snd dataset pool key c2 H2 Hp) as S2.
  destruct (cached' pool key c1) as [r1 c1'],
           (cached' pool key c2) as [r2 c2']; cbn in *.
  subst r1 r2. destruct (colorOf _ _ _ _); [|done].
  apply IH; [done..|]. intros key' Hkey'. apply Hk. by right.
Qed.

Lemma evalPoints_snd dataset pool target n keys best cache :
  valid dataset cache → poolOf dataset pool →
  valid dataset (snd (evalPoints' pool target n keys best cache)).
Proof.
  intros Hv Hp. revert best cache Hv.
  induction keys as [|key keys IH]; [done|].
  intros best cache Hv. cbn.
  pose proof (cached_snd dataset pool key cache Hv Hp) as S1.
  destruct (cached' pool key cache) as [[c|e] cache']; cbn in *; [|done].
  by apply IH.
Qed.

Lemma evalPoints_sorted pool target n keys best cache best' :
  StronglySorted notWorse best → length best ≤ n →
  fst (evalPoints' pool target n keys best cache) = Ok best' →
  StronglySorted notWorse best' ∧ length best' ≤ n.
Proof.
  revert best cache. induction keys as [|key keys IH]; cbn.
  - intros best cache Hs Hl [= <-]. done.
  - intros best cache Hs Hl.
    destruct (cached' pool key cache) as [[c|e] cache']; [|done].
    apply IH.
    + by apply take_sorted, insertMix_sorted.
    + rewrite length_take. lia.
Qed.

(** The grid points of a subset of the pool mix paints of the pool. *)
Lemma gridKeys_known pool subset key :
  subset ∈ subsets MAX_PAINTS pool →
  key ∈ gridKeys GRID_STEPS subset →
  totalWeight (toRatios key) = 1%R
  ∧ knownIds pool (toRatios key) = true.
Proof.
  intros Hsub Hkey. apply subsets_spec in Hsub as [Hn Hin].
  destruct (gridKeys_spec _ _ _ Hn Hkey) as [Hsum Hids].
  split; [done|]. apply knownIds_true. intros e He.
  apply Hids, list_elem_of_fmap in He as (p & -> & Hp).
  apply list_elem_of_fmap. exists p. split; [done|]. by apply Hin.
Qed.

Lemma searchSubsets_fst dataset pool target n todo best c1 c2 :
  valid dataset c1 → valid dataset c2 → poolOf dataset pool →
  (∀ subset, subset ∈ todo → subset ∈ subsets MAX_PAINTS pool) →
  fst (searchSubsets' pool target n todo best c1)
  = fst (searchSubsets' pool target n todo best c2).
Proof.
  intros H1 H2 Hp. revert best c1 c2 H1 H2.
  induction todo as [|subset todo IH]; [done|].
  intros best c1 c2 H1 H2 Htodo. cbn.
  assert (Hrest : ∀ s, s ∈ todo → s ∈ subsets MAX_PAINTS pool).
  { intros s Hs. apply Htodo. by right. }
  destruct (pruned lowerBound n subset target best); [by apply IH|].
  assert (Hkeys : ∀ key, key ∈ gridKeys GRID_STEPS subset →
                         knownIds pool (toRatios key) = true).
  { intros key Hkey. apply (gridKeys_known pool subset); [|done].
    apply Htodo. by left. }
  pose proof (evalPoints_fst dataset pool target n
    (gridKeys GRID_STEPS subset) best c1 c2 H1 H2 Hp Hkeys) as F.
  pose proof (evalPoints_snd dataset pool target n
    (gridKeys GRID_STEPS subset) best c1 H1 Hp) as S1.
  pose proof (evalPoints_snd dataset pool target n
    (gridKeys GRID_STEPS subset) best c2 H2 Hp) as S2.
  destruct (evalPoints' pool target n _ best c1) as [r1 c1'],
           (evalPoints' pool target n _ best c2) as [r2 c2']; cbn in *.
  subst r2. destruct r1; [by apply IH|done].
Qed.

Lemma searchSubsets_snd dataset pool target n todo best cache :
  valid dataset cache → poolOf dataset pool →
  valid dataset (snd (searchSubsets' pool target n todo best cache)).
Proof.
  intros Hv Hp. revert best cache Hv.
  induction todo as [|subset todo IH]; [done|].
  intros best cache Hv. cbn.
  destruct (pruned lowerBound n subset target best); [by apply IH|].
  pose proof (evalPoints_snd dataset pool target n
    (gridKeys GRID_STEPS subset) best cache Hv Hp) as S1.
  destruct (evalPoints' pool target n _ best cache) as [[b|e] c']; cbn in *;
    [by apply IH|done].
Qed.

Lemma searchSubsets_sorted pool target n todo best cache best' :
  StronglySorted notWorse best → length best ≤ n →
  fst (searchSubsets' pool target n todo best cache) = Ok best' →
  StronglySorted notWorse best' ∧ length best' ≤ n.
Proof.
  revert best cache. induction todo as [|subset todo IH]; cbn.
  - intros best cache Hs Hl [= <-]. done.
  - intros best cache Hs Hl.
    destruct (pruned lowerBound n subset target best); [by apply IH|].
    pose proof (evalPoints_sorted pool target n
      (gridKeys GRID_STEPS subset) best cache) as E.
    destruct (evalPoints' pool target n _ best cache) as [[b|e] c']; cbn in *;
      [|done].
    destruct (E b Hs Hl eq_refl). by apply IH.
Qed.

(** The mixer accepts every grid point of every subset of the pool. *)
Lemma colorOf_grid pool subset key :
  subset ∈ subsets MAX_PAINTS pool →
  key ∈ gridKeys GRID_STEPS subset →
  ∃ c, colorOf KS_MAX toResultColor pool key = Ok c.
Proof.
  intros Hsub Hkey.
  destruct (gridKeys_known pool subset key Hsub Hkey) as [Hsum Hids].
  unfold colorOf. rewrite mix_accepted; [by eexists| |done].
  rewrite Hsum, Rminus_diag, Rabs_R0. left. apply TOLERANCE_pos.
Qed.

Lemma evalPoints_ok dataset pool target n keys best cache :
  valid dataset cache → poolOf dataset pool →
  (∀ key, key ∈ keys → ∃ c, colorOf KS_MAX toResultColor pool key = Ok c) →
  ∃ best', fst (evalPoints' pool target n keys best cache) = Ok best'.
Proof.
  intros Hv Hp. revert best cache Hv. induction keys as [|key keys IH]; cbn.
  - intros best cache _ _. by exists best.
  - intros best cache Hv Hkeys.
    destruct (Hkeys key) as [c Hc]; [by left|].
    pose proof (cached_fst dataset pool key cache Hv Hp
                  (colorOf_known _ _ _ Hc)) as F.
    pose proof (cached_snd dataset pool key cache Hv Hp) as S.
    rewrite Hc in F.
    destruct (cached' pool key cache) as [r cache']; cbn in *. subst r.
    apply IH; [done|]. intros key' Hkey'. apply Hkeys. by right.
Qed.

Lemma searchSubsets_ok dataset pool target n todo best cache :
  valid dataset cache → poolOf dataset pool →
  (∀ subset, subset ∈ todo → subset ∈ subsets MAX_PAINTS pool) →
  ∃ best', fst (searchSubsets' pool target n todo best cache) = Ok best'.
Proof.
  intros Hv Hp. revert best cache Hv. induction todo as [|subset todo IH]; cbn.
  - intros best cache _ _. by exists best.
  - intros best cache Hv Htodo.
    assert (Hrest : ∀ s, s ∈ todo → s ∈ subsets MAX_PAINTS pool).
    { intros s Hs. apply Htodo. by right. }
    destruct (pruned lowerBound n subset target best); [by apply IH|].
    destruct (evalPoints_ok dataset pool target n (gridKeys GRID_STEPS subset)
                best cache Hv Hp) as [best' E].
    { intros key Hkey. apply (colorOf_grid pool subset); [|done].
      apply Htodo. by left. }
    pose proof (evalPoints_snd dataset pool target n
      (gridKeys GRID_STEPS subset) best cache Hv Hp) as S.
    destruct (evalPoints' pool target n _ best cache) as [r c']; cbn in *.
    subst r. by apply IH.
Qed.

(** C7: on an empty paint pool [findBestMixes] fails with [InputError]
    before it evaluates anything: it returns no list of mixes, and the Mix
    Cache is as it was before the call.  An empty pool is the only pool it
    fails on. *)
Theorem findBestMixes_empty_pool target maxResults cache :
  findBestMixes KS_MAX toResultColor lowerBound evict MAX_PAINTS GRID_STEPS
    target [] maxResults cache
  = (Throw InputError, cache)
  ∧ ∀ pool e,
      valid pool cache →
      fst (findBestMixes KS_MAX toResultColor lowerBound evict MAX_PAINTS
             GRID_STEPS target pool maxResults cache) = Throw e →
      pool = [].
Proof.
  split; [reflexivity|].
  intros [|p pool] e Hv He; [done|]. exfalso.
  destruct (searchSubsets_ok (p :: pool) (p :: pool) target maxResults
              (subsets MAX_PAINTS (p :: pool)) [] cache Hv
              (poolOf_refl _)) as [best Hb];
    [done|].
  unfold findBestMixes in He. congruence.
Qed.

End SearchFacts.

Section DeterminismFacts.
Import Engine.

Variable KS_MAX : R.
Variable toResultColor : list Sample → ResultColor.
Variable evict :
  gmap (list (PaintId * (nat * nat))) ResultColor →
  gmap (list (PaintId * (nat * nat))) ResultColor.

(** The eviction policy removes entries and does nothing else. *)
Hypothesis evict_subseteq : ∀ cache, evict cache ⊆ cache.

(** The dataset has one paint per id. *)
Variable dataset : list Paint.
Hypothesis dataset_ids : NoDup (paintId <$> dataset).

Implicit Types cache : gmap (list (PaintId * (nat * nat))) ResultColor.

Local Open Scope nat_scope.

Lemma poolOf_dataset pool :
  (∀ p, p ∈ pool → p ∈ dataset) → poolOf dataset pool.
Proof.
  intros Hsub i p Hf. apply find_some in Hf as [Hin Hid].
  apply bool_decide_eq_true in Hid as <-.
  apply findPaint_Some; [exact dataset_ids|].
  by apply Hsub, list_elem_of_In.
Qed.

(** Every cache the engine comes to hold over the dataset holds nothing but
    colours of mixes of the dataset. *)
Lemma reachable_valid cache :
  reachable KS_MAX toResultColor evict dataset cache →
  cacheValid KS_MAX toResultColor dataset cache.
Proof.
  induction 1 as [|cache lb mp gs target pool n _ IH Hsub].
  - apply cacheValid_empty.
  - unfold findBestMixes. destruct pool as [|p pool]; [exact IH|].
    apply searchSubsets_snd; [exact evict_subseteq|exact IH|].
    by apply poolOf_dataset.
Qed.

Variable lowerBound : list Paint → Lab → R.
Variables (MAX_PAINTS GRID_STEPS : nat).


End DeterminismFacts.

(** The empty pool, with a cache that holds nothing and is never evicted
    from. *)
Lemma findBestMixes_empty_pool_witness :
  let toColor : list Engine.Sample → Engine.ResultColor :=
    fun s => {| Engine.lab := {| Engine.L :=
                                   match s !! 0%nat with
                                   | Some (Engine.Value r) => r
                                   | _ => 0%R
                                   end;
                                 Engine.a := 0; Engine.b := 0 |};
                Engine.rgb := (0, 0, 0)%Z |} in
  Engine.findBestMixes 1000000 toColor (fun _ _ => 0%R) (fun c => c) 3 12
    {| Engine.L := 50; Engine.a := 0; Engine.b := 0 |} [] 5 ∅
  = (Throw Engine.InputError, ∅).
Proof.
  intros toColor.
  apply (findBestMixes_empty_pool 1000000 toColor (fun _ _ => 0%R)
           (fun c => c) 3 12 (fun c => reflexivity c)
           {| Engine.L := 50; Engine.a := 0; Engine.b := 0 |} 5 ∅).
Defined.


(** * Further properties of the source *)

(** ** Opening the database *)

Section DBMore.
Import DB.
Implicit Types db : gmap string IDBObjectStore.

Lemma upgrade_stores db name :
  name ∈ storeNames →
  ∃ db', upgrade db = Ok db' ∧ is_Some (db' !! name).
Proof.
  intros Hin. eexists. split; [apply upgrade_eq|].
  rewrite storeNames_eq in Hin. set_unfold in Hin.
  destruct Hin as [->|[->|[->|[->|[]]]]];
    rewrite ?ensureStore_other by done; apply ensureStore_here.
Qed.

(** X1: [dbPromise] rejects with a [VersionError] when the stored version is
    above 2; at version 2 it returns the database as it is, also when a store
    is missing; below version 2 it runs the upgrade: the version becomes 2,
    the four stores exist and every store that was there is as it was. *)
Theorem dbPromise_outcome (st : Stored) :
  ((2 < version st)%N → dbPromise st = Throw VersionError)
  ∧ (version st = 2%N → dbPromise st = Ok st)
  ∧ ((version st < 2)%N →
     ∃ db', dbPromise st = Ok {| version := 2; stores := db' |}
            ∧ (∀ name, name ∈ storeNames → is_Some (db' !! name))
            ∧ (∀ name s, stores st !! name = Some s → db' !! name = Some s)).
Proof.
  unfold dbPromise, openDB. split; [|split].
  - intros H. by rewrite (proj2 (N.ltb_lt _ _) H).
  - intros ->. done.
  - intros H.
    rewrite (proj2 (N.ltb_ge _ _) (N.lt_le_incl _ _ H)).
    rewrite (proj2 (N.ltb_lt _ _) H), upgrade_eq.
    eexists. split; [done|]. split.
    + intros name Hin. destruct (upgrade_stores (stores st) name Hin)
        as (db' & Hup & Hsome).
      rewrite upgrade_eq in Hup. by injection Hup as <-.
    + intros name s Hs. by do 4 apply ensureStore_old.
Qed.

(** A database at version 1 that has the paint sets only. *)
Lemma dbPromise_outcome_witness :
  ∃ db',
    dbPromise {| version := 1;
                 stores := {["paint-sets" := emptyStore (Some "type")]} |}
    = Ok {| version := 2; stores := db' |}
    ∧ db' !! "paint-sets" = Some (emptyStore (Some "type")).
Proof.
  destruct (proj2 (proj2 (dbPromise_outcome
    {| version := 1;
       stores := {["paint-sets" := emptyStore (Some "type")]} |})))
    as (db' & H & _ & Hold); [done|].
  exists db'. split; [exact H|]. apply Hold. apply lookup_singleton_eq.
Defined.

(** The store the callback makes under a name of the interface. *)
Lemma upgrade_new_store db name :
  db !! name = None →
  name ∈ storeNames →
  ∃ db', upgrade db = Ok db'
    ∧ db' !! name = Some
        (if decide (name = "paint-sets") then paintSetStore
         else if decide (name = "paint-mixes") then emptyStore (Some "id")
         else emptyStore None).
Proof.
  intros Hnone Hin. eexists. split; [apply upgrade_eq|].
  rewrite storeNames_eq in Hin. set_unfold in Hin.
  destruct Hin as [->|[->|[->|[->|[]]]]]; cbn.
  - rewrite !ensureStore_other by done. by apply ensureStore_new.
  - apply ensureStore_new. by rewrite !ensureStore_other.
  - rewrite !ensureStore_other by done. apply ensureStore_new.
    by rewrite ensureStore_other.
  - rewrite ensureStore_other by done. apply ensureStore_new.
    by rewrite !ensureStore_other.
Qed.

(** X2: a store the upgrade callback creates has exactly the indexes the
    [ArtistAssistAppDB] interface declares for it, and no record. *)
Theorem upgrade_matches_interface db name schema :
  (name, schema) ∈ ArtistAssistAppDB →
  db !! name = None →
  ∃ db' st,
    upgrade db = Ok db'
    ∧ db' !! name = Some st
    ∧ dom (indexes st) = list_to_set (fst <$> schemaIndexes schema)
    ∧ records st = [].
Proof.
  intros Hin Hnone.
  assert (Hname : name ∈ storeNames).
  { unfold storeNames. apply list_elem_of_fmap. by exists (name, schema). }
  destruct (upgrade_new_store db name Hnone Hname) as (db' & Hup & Hst).
  exists db'. eexists. split; [exact Hup|]. split; [exact Hst|].
  unfold ArtistAssistAppDB in Hin. rewrite !elem_of_cons in Hin.
  destruct Hin as [[= -> ->]|[[= -> ->]|[[= -> ->]|[[= -> ->]|Hin]]]];
    [..|by apply elem_of_nil in Hin];
    repeat first [ rewrite decide_True by reflexivity
                 | rewrite decide_False by discriminate ];
    (split; [|done]).
  - unfold paintSetStore. cbn [indexes schemaIndexes fmap list_fmap fst].
    rewrite dom_singleton_L. set_solver.
  - unfold emptyStore. cbn [indexes]. rewrite dom_empty_L. set_solver.
  - unfold emptyStore. cbn [indexes]. rewrite dom_empty_L. set_solver.
  - unfold emptyStore. cbn [indexes]. rewrite dom_empty_L. set_solver.
Qed.

Lemma upgrade_matches_interface_witness :
  ∃ db' st,
    upgrade ∅ = Ok db'
    ∧ db' !! "paint-sets" = Some st
    ∧ dom (indexes st) = {["by-timestamp"]}.
Proof.
  destruct (upgrade_matches_interface ∅ "paint-sets"
              {| value := PaintSetDefinitionT; key := PaintTypeK;
                 schemaIndexes := [("by-timestamp", NumberK)] |})
    as (db' & st & H1 & H2 & H3 & _).
  - by left.
  - apply lookup_empty.
  - exists db', st. split; [exact H1|]. split; [exact H2|].
    rewrite H3. cbn. set_solver.
Defined.

(** X3: the ['color-picker'] and ['image-file'] stores are created without a
    key path and without an index: no record has an in-line key there, so
    each one has to be put with a key of its own. *)
Theorem upgrade_out_of_line_keys db name :
  name = "color-picker" ∨ name = "image-file" →
  db !! name = None →
  ∃ db' st,
    upgrade db = Ok db'
    ∧ db' !! name = Some st
    ∧ indexes st = ∅
    ∧ ∀ record, inlineKey st record = None.
Proof.
  intros Hname Hnone.
  assert (Hin : name ∈ storeNames).
  { rewrite storeNames_eq. set_unfold. tauto. }
  destruct (upgrade_new_store db name Hnone Hin) as (db' & Hup & Hst).
  exists db'. eexists. split; [exact Hup|]. split; [exact Hst|].
  destruct Hname as [-> | ->];
    repeat first [ rewrite decide_True by reflexivity
                 | rewrite decide_False by discriminate ];
    done.
Qed.

Lemma upgrade_out_of_line_keys_witness :
  ∃ db' st,
    upgrade ∅ = Ok db'
    ∧ db' !! "image-file" = Some st
    ∧ inlineKey st (Js.Obj [("id", Js.Num 1)]) = None.
Proof.
  destruct (upgrade_out_of_line_keys ∅ "image-file")
    as (db' & st & H1 & H2 & _ & H3).
  - by right.
  - apply lookup_empty.
  - exists db', st. split; [exact H1|]. split; [exact H2|]. apply H3.
Defined.

End DBMore.

(** ** The options of the paint set chooser *)

Section OptionFacts.
Import PaintSetChooser ChooserOptions.
Local Open Scope Z_scope.

Lemma prefix_refl s : String.prefix s s = true.
Proof.
  induction s as [|c s IH]; [done|]. cbn.
  destruct (ascii_dec c c); [exact IH|done].
Qed.

Lemma includes_refl s : includes s s = true.
Proof.
  destruct s as [|c s]; [done|].
  change (includes (String c s) (String c s))
    with (String.prefix (String c s) (String c s)
          || includes s (String c s)).
  by rewrite prefix_refl.
Qed.

Lemma includes_empty s : includes s "" = true.
Proof. by destruct s. Qed.

(** X4: [getStoreBoughtPaintSetOptions] returns no option exactly when there
    is no paint type, the paint type is 0, or no store-bought set is loaded;
    in every other case the custom paint set is offered. *)
Theorem options_empty_iff (labels : PaintType → PaintBrand → option Label)
    (type : option PaintType)
    (sets : Js.Map PaintBrand (Js.Map string StoreBoughtPaintSet)) :
  (getStoreBoughtPaintSetOptions labels type sets = []
   ↔ type = None ∨ type = Some 0 ∨ sets = [])
  ∧ (getStoreBoughtPaintSetOptions labels type sets ≠ [] →
     head (getStoreBoughtPaintSetOptions labels type sets)
     = Some customPaintSetOption).
Proof.
  unfold getStoreBoughtPaintSetOptions, noType.
  destruct type as [t|]; cbn.
  - destruct (Z.eqb_spec t 0) as [->|Ht]; cbn.
    + split; [|done]. split; [auto|done].
    + destruct sets as [|e sets]; cbn.
      * split; [|done]. split; [auto|done].
      * split; [|done]. split; [done|].
        intros [?|[[= ?]|?]]; done.
  - split; [|done]. split; [auto|done].
Qed.

(** X5: when the brands of the map are pairwise distinct and none of them
    is 0, the options have pairwise distinct values, the custom paint set
    included; and the children of a brand whose sets have pairwise distinct
    names have pairwise distinct values. *)
Theorem option_values_distinct (labels : PaintType → PaintBrand → option Label)
    (type : option PaintType)
    (sets : Js.Map PaintBrand (Js.Map string StoreBoughtPaintSet)) :
  NoDup (fst <$> sets) →
  (∀ e, e ∈ sets → fst e ≠ 0) →
  NoDup ((fun o => Js.get o "value")
           <$> getStoreBoughtPaintSetOptions labels type sets)
  ∧ ∀ t e, e ∈ sets →
      NoDup (PaintSetChooser.name <$> Js.values (snd e)) →
      ∃ children,
        Js.get (brandOption labels t e) "children" = Js.Arr children
        ∧ NoDup ((fun o => Js.get o "value") <$> children).
Proof.
  intros Hnd Hnz. split.
  - unfold getStoreBoughtPaintSetOptions.
    destruct (noType type || (Js.size sets =? 0)%nat); [constructor|].
    destruct type as [t|]; [|constructor].
    cbn. apply NoDup_cons. split.
    + rewrite <- list_fmap_compose. intros Hin.
      apply list_elem_of_fmap in Hin as (e & He & Hin). cbn in He.
      injection He as He. by apply (Hnz e Hin).
    + rewrite <- list_fmap_compose.
      change ((fun o => Js.get o "value") ∘ brandOption labels t)
        with (Js.Num ∘ (fst : PaintBrand * Js.Map string StoreBoughtPaintSet
                            → PaintBrand)).
      rewrite list_fmap_compose. apply NoDup_fmap; [|done].
      by intros ?? [= ?].
  - intros t e He Hnames. eexists. split; [reflexivity|].
    rewrite <- list_fmap_compose.
    change ((fun o => Js.get o "value") ∘ setOption)
      with (Js.Str ∘ PaintSetChooser.name).
    unfold Js.values in *. rewrite list_fmap_compose.
    apply NoDup_fmap; [|done]. by intros ?? [= ?].
Qed.

Lemma option_values_distinct_witness :
  NoDup ((fun o => Js.get o "value")
           <$> getStoreBoughtPaintSetOptions (fun _ _ => None) (Some 1)
                 [(1, []); (2, [])]).
Proof.
  apply (option_values_distinct (fun _ _ => None) (Some 1) [(1, []); (2, [])]).
  - apply (bool_decide_unpack _). by vm_compute.
  - intros e He. rewrite !elem_of_cons in He.
    destruct He as [->|[->|He]]; [done..|]. by apply elem_of_nil in He.
Defined.

End OptionFacts.

(** ** Paint labels *)

Section LabelFacts.
Import ChooserOptions.
Local Open Scope Z_scope.

Lemma padded_checked : forallb paddedCheck (seq 0 1000) = true.
Proof. by vm_compute. Qed.

Lemma padded_spec (n : Z) :
  0 <= n < 1000 →
  let d := padStart 3 "0" (pretty n) in
  String.length d = 3%nat
  ∧ forallb isDigit (list_ascii_of_string d) = true
  ∧ digitsValue 0 d = n.
Proof.
  intros Hn d.
  pose proof (proj1 (forallb_forall _ _) padded_checked (Z.to_nat n)) as H.
  unfold paddedCheck in H. rewrite Z2Nat.id in H by lia. fold d in H.
  rewrite !andb_true_iff in H. destruct H as [[H1 H2] H3].
  { apply in_seq. lia. }
  apply Nat.eqb_eq in H1. apply Z.eqb_eq in H3. done.
Qed.

Lemma app_inj_length3 (d1 d2 r1 r2 : string) :
  String.length d1 = 3%nat → String.length d2 = 3%nat →
  d1 +:+ r1 = d2 +:+ r2 → d1 = d2 ∧ r1 = r2.
Proof.
  destruct d1 as [|a1 [|b1 [|c1 [|x1 y1]]]]; try discriminate.
  destruct d2 as [|a2 [|b2 [|c2 [|x2 y2]]]]; try discriminate.
  intros _ _ H. cbv [String.append] in H.
  injection H as -> -> -> ->. done.
Qed.

(** X8: the label of a paint with an id from 0 to 999 is the id written
    with three decimal digits, a space and the name; from 1000 on it is the
    name alone.  Two paints with ids from 0 to 999 that have the same label
    have the same id and the same name. *)
Theorem paintLabel_format (p : Paint) :
  (0 <= id p < 1000 →
   ∃ d, paintLabel p = d +:+ " " +:+ name p
        ∧ String.length d = 3%nat
        ∧ forallb isDigit (list_ascii_of_string d) = true
        ∧ digitsValue 0 d = id p)
  ∧ (1000 <= id p → paintLabel p = name p)
  ∧ (∀ q, 0 <= id p < 1000 → 0 <= id q < 1000 →
          paintLabel p = paintLabel q → id p = id q ∧ name p = name q).
Proof.
  split; [|split].
  - intros Hp. exists (padStart 3 "0" (pretty (id p))).
    split; [|by apply padded_spec].
    unfold paintLabel. by rewrite (proj2 (Z.ltb_lt _ _) (proj2 Hp)).
  - intros Hp. unfold paintLabel. by rewrite (proj2 (Z.ltb_ge _ _) Hp).
  - intros q Hp Hq. unfold paintLabel.
    rewrite (proj2 (Z.ltb_lt _ _) (proj2 Hp)),
            (proj2 (Z.ltb_lt _ _) (proj2 Hq)).
    destruct (padded_spec (id p) Hp) as (Lp & _ & Vp).
    destruct (padded_spec (id q) Hq) as (Lq & _ & Vq).
    intros Heq. apply app_inj_length3 in Heq as [Hd Hn]; [|done..].
    split; [|by injection Hn].
    rewrite <- Vp, <- Vq. by rewrite Hd.
Qed.

Lemma paintLabel_format_witness :
  ∃ d,
    paintLabel {| id := 7; name := "Lemon Yellow"; rgb := Js.Undefined |}
    = d +:+ " Lemon Yellow"
    ∧ String.length d = 3%nat.
Proof.
  destruct (proj1 (paintLabel_format
    {| id := 7; name := "Lemon Yellow"; rgb := Js.Undefined |}))
    as (d & H & Hlen & _); [done|].
  exists d. split; [exact H | exact Hlen].
Defined.

Lemma mapGet_elem_of {K V} `{EqDecision K} (m : Js.Map K V) k v :
  NoDup (fst <$> m) → mapGet m k = Some v ↔ (k, v) ∈ m.
Proof.
  unfold mapGet. induction m as [|[k' v'] m IH]; cbn.
  - intros _. split; [done|]. intros H'. by apply elem_of_nil in H'.
  - intros Hnd. apply NoDup_cons in Hnd as [Hk Hnd].
    rewrite elem_of_cons. case_bool_decide as E; cbn.
    + subst k'. split; [intros [= ->]; by left|].
      intros [[= ->]|Hin]; [done|]. exfalso. apply Hk.
      apply list_elem_of_fmap. by exists (k, v).
    + rewrite (IH Hnd). split; [by right|].
      intros [[= ? ?]|?]; [by subst|done].
Qed.

Lemma fromEntries_lookup {V} (l : list (Z * V)) k :
  NoDup (fst <$> l) → fromEntries l !! k = mapGet l k.
Proof.
  intros Hnd. apply option_eq. intros v.
  rewrite (mapGet_elem_of l k v Hnd). unfold fromEntries.
  rewrite <- elem_of_list_to_map.
  - by rewrite elem_of_reverse.
  - by rewrite fmap_reverse, reverse_Permutation.
Qed.

(** X7: for a map with pairwise distinct brands, [getPaintOptions] has an
    entry for a brand exactly when the map has one, and the entry lists one
    option per paint of the brand, in the order of the map, with the id of
    the paint as its value; a brand without paints loaded has no entry. *)
Theorem getPaintOptions_lookup
    (paints : Js.Map PaintSetChooser.PaintBrand (Js.Map Z Paint)) brand :
  NoDup (fst <$> paints) →
  getPaintOptions paints !! brand
  = (fun inner => paintOption <$> Js.values inner) <$> mapGet paints brand
  ∧ (∀ options, getPaintOptions paints !! brand = Some options →
       ∃ inner, mapGet paints brand = Some inner
                ∧ value <$> options = id <$> Js.values inner
                ∧ length options = Js.size inner)
  ∧ (mapGet paints brand = None → getPaintOptions paints !! brand = None).
Proof.
  intros Hnd.
  assert (Heq : getPaintOptions paints !! brand
    = (fun inner => paintOption <$> Js.values inner) <$> mapGet paints brand).
  { unfold getPaintOptions. destruct paints as [|e paints]; [done|].
    change (Js.size (e :: paints) =? 0)%nat with false. cbv iota.
    unfold Js.entries. rewrite fromEntries_lookup.
    - unfold mapGet. generalize (e :: paints). intros l.
      induction l as [|[b inner] l IH]; [done|]. cbn.
      destruct (decide (b = brand)) as [E|E].
      + by rewrite !bool_decide_eq_true_2 by done.
      + rewrite !bool_decide_eq_false_2 by done. exact IH.
    - rewrite <- list_fmap_compose. exact Hnd. }
  split; [exact Heq|]. split.
  - intros options Hopt. rewrite Heq in Hopt.
    destruct (mapGet paints brand) as [inner|]; [|done].
    injection Hopt as <-. exists inner. split; [done|].
    unfold Js.values, Js.size. rewrite <- !list_fmap_compose.
    split; [done|]. by rewrite !length_fmap.
  - intros Hnone. by rewrite Heq, Hnone.
Qed.

Lemma getPaintOptions_lookup_witness :
  getPaintOptions
    [(2, [(7, {| id := 7; name := "Lemon"; rgb := Js.Undefined |})])] !! 3
  = None.
Proof.
  apply (getPaintOptions_lookup
    [(2, [(7, {| id := 7; name := "Lemon"; rgb := Js.Undefined |})])] 3).
  - apply NoDup_singleton.
  - reflexivity.
Defined.

End LabelFacts.

(** ** The search boxes *)

Section SearchBoxFacts.
Import PaintSetChooser ChooserOptions.
Local Open Scope Z_scope.

Variable PAINT_BRAND_LABELS : PaintType → list (PaintBrand * Label).
Variable toLowerCase : string → string.

Local Abbreviation filterSelect := (filterSelectOptions toLowerCase).
Local Abbreviation filterCascader := (filterCascaderOptions toLowerCase).
Local Abbreviation labelsOf := (brandLabelOf PAINT_BRAND_LABELS).

(** X6: [getPaintBrandOptions] offers nothing without a paint type or for
    paint type 0, and otherwise one option per brand of the label table of
    the type, in the order of the table, valued by the brand and labelled
    with its full text; such an option is found by [filterSelectOptions]
    when its label, if it is not empty, is typed in any letter case. *)
Theorem getPaintBrandOptions_spec (type : option PaintType) :
  (noType type = true → getPaintBrandOptions PAINT_BRAND_LABELS type = [])
  ∧ (∀ t, type = Some t → t ≠ 0 →
       value <$> getPaintBrandOptions PAINT_BRAND_LABELS type
       = fst <$> PAINT_BRAND_LABELS t
       ∧ label <$> getPaintBrandOptions PAINT_BRAND_LABELS type
         = (fun e => Some (Text (fullText (snd e)))) <$> PAINT_BRAND_LABELS t)
  ∧ (∀ o l inputValue,
       o ∈ getPaintBrandOptions PAINT_BRAND_LABELS type →
       label o = Some (Text l) → l ≠ "" →
       toLowerCase inputValue = toLowerCase l →
       filterSelect inputValue (Some o) = true).
Proof.
  split; [|split].
  - intros H. unfold getPaintBrandOptions. by rewrite H.
  - intros t -> Ht. unfold getPaintBrandOptions, noType.
    rewrite (proj2 (Z.eqb_neq _ _) Ht).
    by rewrite <- !list_fmap_compose.
  - intros o l inputValue _ Hl Hne Hlow. unfold filterSelectOptions.
    rewrite Hl, Hlow. destruct l; [done|]. apply includes_refl.
Qed.

(** X9: the option of a paint carries its label twice, as the React key of
    the [Space] and as the text of the [span] in it, so
    [filterSelectOptions], which reads the key, searches what is shown: it
    holds exactly when the label in lower case contains the input in lower
    case, and in particular when the label is typed in any letter case. *)
Theorem paintOption_search (p : Paint) (inputValue : string) :
  (∃ props square,
     label (paintOption p)
     = Some (Element "Space" (Some (paintLabel p)) props
               [square; Element "span" None [] [Text (paintLabel p)]]))
  ∧ filterSelect inputValue (Some (paintOption p))
    = includes (toLowerCase (paintLabel p)) (toLowerCase inputValue)
  ∧ (toLowerCase inputValue = toLowerCase (paintLabel p) →
     filterSelect inputValue (Some (paintOption p)) = true).
Proof.
  split; [by eexists _, _|]. split; [reflexivity|].
  intros H. cbn. rewrite H. apply includes_refl.
Qed.

(** X10: for an input that is empty in lower case [filterSelectOptions]
    holds exactly for the options that have a string label that is not
    empty or an element label with a key: an option without one of these is
    never shown, whatever is typed. *)
Theorem filterSelectOptions_empty_input (inputValue : string)
    (option : option SelectOption) :
  (toLowerCase inputValue = "" →
   filterSelect inputValue option = true
   ↔ ∃ o, option = Some o
          ∧ ((∃ l, label o = Some (Text l) ∧ l ≠ "")
             ∨ ∃ type k props children,
                 label o = Some (Element type (Some k) props children)))
  ∧ (filterSelect inputValue option = true →
     ∃ o, option = Some o
          ∧ ((∃ l, label o = Some (Text l) ∧ l ≠ "")
             ∨ ∃ type k props children,
                 label o = Some (Element type (Some k) props children))).
Proof.
  assert (Hdir : filterSelect inputValue option = true →
    ∃ o, option = Some o
         ∧ ((∃ l, label o = Some (Text l) ∧ l ≠ "")
            ∨ ∃ type k props children,
                label o = Some (Element type (Some k) props children))).
  { unfold filterSelectOptions. destruct option as [o|]; [|done].
    intros H. exists o. split; [done|].
    destruct (label o) as [[l|ty [k|] pr ch]|]; try done.
    - left. exists l. split; [done|]. by destruct l.
    - right. by exists ty, k, pr, ch. }
  split; [|exact Hdir].
  intros Hempty. split; [exact Hdir|].
  intros (o & -> & [(l & Hl & Hne)|(ty & k & pr & ch & Hl)]);
    unfold filterSelectOptions; rewrite Hl, Hempty.
  - destruct l; [done|]. apply includes_empty.
  - apply includes_empty.
Qed.

(** A path whose options all have string labels. *)
Lemma filterCascader_strings inputValue path :
  (∀ o, o ∈ path → ∃ l, Js.get o "label" = Js.Str l) →
  filterCascader inputValue path
  = Ok (existsb (labelMatches toLowerCase inputValue) path).
Proof.
  induction path as [|o path IH]; [done|]. intros Hall.
  destruct (Hall o) as [l Hl]; [by left|].
  cbn. unfold labelMatches at 1. rewrite Hl.
  destruct (includes _ _); [done|]. cbn. apply IH.
  intros o' Ho'. apply Hall. by right.
Qed.

(** X12: on a path whose options all have a string label
    [filterCascaderOptions] raises nothing and tells whether some label
    contains the input, both in lower case; an option whose label is not a
    string makes it raise a [TypeError] when no option in front of it
    matches, and is not looked at when one does. *)
Theorem filterCascaderOptions_spec (inputValue : string)
    (front : list Js.value) (option : Js.value) (rest : list Js.value) :
  (∀ o, o ∈ front → ∃ l, Js.get o "label" = Js.Str l) →
  ((∀ o, o ∈ option :: rest → ∃ l, Js.get o "label" = Js.Str l) →
   filterCascader inputValue (front ++ option :: rest)
   = Ok (existsb (labelMatches toLowerCase inputValue)
           (front ++ option :: rest)))
  ∧ ((∀ l, Js.get option "label" ≠ Js.Str l) →
     filterCascader inputValue (front ++ option :: rest)
     = if existsb (labelMatches toLowerCase inputValue) front then Ok true
       else Throw NotAString).
Proof.
  intros Hfront. split.
  - intros Hrest. apply filterCascader_strings.
    intros o Ho. apply elem_of_app in Ho as [Ho|Ho]; auto.
  - intros Hbad. induction front as [|o front IH]; cbn.
    + destruct (Js.get option "label") as [| |l| |] eqn:E; try done.
      by destruct (Hbad l).
    + destruct (Hfront o) as [l Hl]; [by left|].
      unfold labelMatches at 1. rewrite Hl.
      destruct (includes _ _); [done|]. cbn. apply IH.
      intros o' Ho'. apply Hfront. by right.
Qed.

(** X11: on the path of a store-bought set that the cascader offers,
    [filterCascaderOptions] searches the full text of the brand and the name
    of the set when the label table has the brand, and raises a [TypeError]
    when it has not; on the path of the custom paint set it searches
    ['Custom paint set']. *)
Theorem filterCascaderOptions_offered (inputValue : string) (t : PaintType)
    (e : PaintBrand * Js.Map string StoreBoughtPaintSet)
    (s : StoreBoughtPaintSet) :
  (∀ l, labelsOf t (fst e) = Some l →
     filterCascader inputValue [brandOption labelsOf t e; setOption s]
     = Ok (includes (toLowerCase (fullText l)) (toLowerCase inputValue)
           || includes (toLowerCase (PaintSetChooser.name s))
                (toLowerCase inputValue)))
  ∧ (labelsOf t (fst e) = None →
     filterCascader inputValue [brandOption labelsOf t e; setOption s]
     = Throw NotAString)
  ∧ filterCascader inputValue [customPaintSetOption]
    = Ok (includes (toLowerCase "Custom paint set") (toLowerCase inputValue)).
Proof.
  split; [|split].
  - intros l Hl. unfold filterCascaderOptions.
    change (Js.get (brandOption labelsOf t e) "label")
      with (brandLabel labelsOf t (fst e)).
    change (Js.get (setOption s) "label")
      with (Js.Str (PaintSetChooser.name s)).
    unfold brandLabel. rewrite Hl.
    destruct (includes (toLowerCase (fullText l)) _); [done|].
    by destruct (includes _ _).
  - intros Hl. unfold filterCascaderOptions.
    change (Js.get (brandOption labelsOf t e) "label")
      with (brandLabel labelsOf t (fst e)).
    unfold brandLabel. by rewrite Hl.
  - unfold filterCascaderOptions.
    change (Js.get customPaintSetOption "label")
      with (Js.Str "Custom paint set").
    cbv beta iota. by destruct (includes _ _).
Qed.

End SearchBoxFacts.

Lemma getPaintBrandOptions_spec_witness :
  ChooserOptions.filterSelectOptions ChooserOptions.lowerAscii "REMBRANDT"
    (Some {| ChooserOptions.value := 1;
             ChooserOptions.label := Some (ChooserOptions.Text "Rembrandt") |})
  = true.
Proof.
  apply (proj2 (proj2 (getPaintBrandOptions_spec
           (fun _ => [(1%Z, {| PaintSetChooser.fullText := "Rembrandt" |})])
           ChooserOptions.lowerAscii (Some 1%Z)))
         _ "Rembrandt" "REMBRANDT").
  - by left.
  - reflexivity.
  - discriminate.
  - reflexivity.
Defined.

Lemma paintOption_search_witness :
  ChooserOptions.filterSelectOptions ChooserOptions.lowerAscii "007 LEMON"
    (Some (ChooserOptions.paintOption
             {| ChooserOptions.id := 7; ChooserOptions.name := "Lemon";
                ChooserOptions.rgb := Js.Undefined |}))
  = true.
Proof.
  apply (proj2 (proj2 (paintOption_search ChooserOptions.lowerAscii
           {| ChooserOptions.id := 7; ChooserOptions.name := "Lemon";
              ChooserOptions.rgb := Js.Undefined |} "007 LEMON"))).
  reflexivity.
Defined.

Lemma filterSelectOptions_empty_input_witness :
  ChooserOptions.filterSelectOptions ChooserOptions.lowerAscii ""
    (Some {| ChooserOptions.value := 1;
             ChooserOptions.label := Some (ChooserOptions.Text "Rembrandt") |})
  = true.
Proof.
  apply (proj1 (filterSelectOptions_empty_input ChooserOptions.lowerAscii ""
           (Some {| ChooserOptions.value := 1;
                    ChooserOptions.label :=
                      Some (ChooserOptions.Text "Rembrandt") |}))
           eq_refl).
  eexists. split; [reflexivity|]. left. by eexists.
Defined.

Lemma filterCascaderOptions_spec_witness :
  ChooserOptions.filterCascaderOptions ChooserOptions.lowerAscii "set"
    [Js.Obj [("value", Js.Num 1); ("label", Js.Undefined)]]
  = Throw ChooserOptions.NotAString.
Proof.
  apply (proj2 (filterCascaderOptions_spec ChooserOptions.lowerAscii "set" []
           (Js.Obj [("value", Js.Num 1); ("label", Js.Undefined)]) []
           ltac:(intros o Ho; by apply elem_of_nil in Ho))).
  intros l. discriminate.
Defined.

Lemma filterCascaderOptions_offered_witness :
  ChooserOptions.filterCascaderOptions ChooserOptions.lowerAscii "rem"
    [PaintSetChooser.brandOption
       (ChooserOptions.brandLabelOf (fun _ => [])) 1%Z (5%Z, []);
     PaintSetChooser.setOption
       {| PaintSetChooser.name := "Rembrandt 12";
          PaintSetChooser.colors := [] |}]
  = Throw ChooserOptions.NotAString.
Proof.
  apply (proj1 (proj2 (filterCascaderOptions_offered (fun _ => [])
           ChooserOptions.lowerAscii "rem" 1%Z (5%Z, [])
           {| PaintSetChooser.name := "Rembrandt 12";
              PaintSetChooser.colors := [] |}))).
  reflexivity.
Defined.

(** ** The form handler *)

Section FormFacts.
Import PaintSetChooser ChooserOptions ChooserForm.
Local Open Scope Z_scope.

Variable StoredPaintSet : Type.
Variable getPaintSetByType : PaintType → option StoredPaintSet.
Variable storeBoughtPaintSets :
  Js.Map PaintBrand (Js.Map string StoreBoughtPaintSet).

Local Abbreviation handle :=
  (handleFormValuesChange StoredPaintSet getPaintSetByType
     storeBoughtPaintSets).
Local Abbreviation SetFields := (SetFieldsValue StoredPaintSet).

Lemma emptiedColors_lookup values b :
  emptiedColors values !! b
  = (fun _ => Some []) <$> (default ∅ (ChooserForm.colors values) !! b).
Proof.
  unfold emptiedColors. destruct (ChooserForm.colors values) as [c|]; cbn.
  - by rewrite lookup_fmap.
  - by rewrite lookup_empty.
Qed.

(** X13: [handleFormValuesChange] leaves the form and the database alone
    exactly when the change carries no paint type other than 0, no brands,
    no store-bought set and no colours. *)
Theorem handler_idle_iff (changedValues values : Partial) :
  handle changedValues values = []
  ↔ (type changedValues = None ∨ type changedValues = Some 0)
    ∧ brands changedValues = None
    ∧ (storeBoughtPaintSet changedValues = None
       ∨ storeBoughtPaintSet changedValues = Some None)
    ∧ ChooserForm.colors changedValues = None.
Proof.
  unfold handleFormValuesChange.
  destruct changedValues as [t b sb c]; cbn.
  destruct t as [t|]; [destruct (Z.eqb_spec t 0) as [->|Ht]|];
    destruct b as [b|]; destruct sb as [[ref|]|]; destruct c as [c|]; cbn;
    split; try done; try tauto.
  all: try (intros [[?|[= ?]] _]; done).
  all: try (intros (_ & ? & _); done).
  all: try (intros (_ & _ & [?|?] & _); done).
  all: try (intros (_ & _ & _ & ?); done).
Qed.

(** What an update with fields of the handler's own does to the colours. *)
Lemma own_update_colours (changedValues values : Partial)
    (fields : Partial) (c : gmap Z (option (list Z))) :
  SetFields fields ∈ handle changedValues values →
  ChooserForm.colors fields = Some c →
  (∀ b, is_Some (default ∅ (ChooserForm.colors values) !! b) →
        is_Some (c !! b))
  ∧ ∀ b l, c !! b = Some l →
      l = Some []
      ∨ ∃ ref, storeBoughtPaintSet changedValues = Some (Some ref)
               ∧ fst ref = b ∧ b ≠ 0
               ∧ l = setColors storeBoughtPaintSets ref.
Proof.
  assert (Hreset : ∀ b, is_Some (default ∅ (ChooserForm.colors values) !! b) →
                        is_Some (emptiedColors values !! b)).
  { intros b [x Hx]. rewrite emptiedColors_lookup, Hx. by eexists. }
  assert (Hempty : ∀ b l, emptiedColors values !! b = Some l → l = Some []).
  { intros b l. rewrite emptiedColors_lookup.
    destruct (default ∅ (ChooserForm.colors values) !! b); by intros [= <-]. }
  unfold handleFormValuesChange. rewrite !elem_of_app.
  intros [Hin|[Hin|[Hin|Hin]]] Hc.
  - destruct (type changedValues) as [t|]; [|by apply elem_of_nil in Hin].
    destruct (t =? 0); [by apply elem_of_nil in Hin|].
    rewrite !elem_of_cons in Hin. destruct Hin as [[= ->]|[?|Hin]]; [|done|].
    + cbn in Hc. injection Hc as <-. split; [exact Hreset|]. intros b l Hl.
      left. by apply (Hempty b).
    + destruct (getPaintSetByType t);
        [by apply list_elem_of_singleton in Hin|by apply elem_of_nil in Hin].
  - destruct (brands changedValues) as [bs|]; [|by apply elem_of_nil in Hin].
    apply list_elem_of_singleton in Hin. injection Hin as ->.
    cbn in Hc. injection Hc as <-. split; [exact Hreset|]. intros b l Hl.
    left. by apply (Hempty b).
  - destruct (storeBoughtPaintSet changedValues) as [[ref|]|];
      [|by apply elem_of_nil in Hin..].
    apply list_elem_of_singleton in Hin. injection Hin as ->.
    cbn in Hc. injection Hc as <-.
    destruct (negb (fst ref =? 0)
              && negb (Js.size storeBoughtPaintSets =? 0)%nat) eqn:E.
    + apply andb_true_iff in E as [E _].
      apply negb_true_iff, Z.eqb_neq in E. split.
      * intros b Hb. destruct (decide (fst ref = b)) as [<-|Hne].
        -- rewrite lookup_insert_eq. by eexists.
        -- rewrite lookup_insert_ne by done. by apply Hreset.
      * intros b l. destruct (decide (fst ref = b)) as [<-|Hne].
        -- rewrite lookup_insert_eq. intros [= <-]. right. by exists ref.
        -- rewrite lookup_insert_ne by done. intros Hl. left.
           by apply (Hempty b).
    + split; [exact Hreset|]. intros b l Hl. left. by apply (Hempty b).
  - destruct (ChooserForm.colors changedValues) as [cs|]; [|by apply elem_of_nil in Hin].
    apply list_elem_of_singleton in Hin. injection Hin as ->. done.
Qed.

(** X14: every call the handler makes is of one of three kinds.  An update
    of the form with fields of the handler's own, when it writes the colours,
    keeps a list for each brand that had one and empties it: the only list it
    can fill is that of the brand of the store-bought set that was chosen,
    with the colours of that set.  The read of the stored paint set is made
    for a changed paint type other than 0.  The one other update of the form
    writes back what that read found, as it is stored: its colours are not
    emptied. *)
Theorem handler_empties_colours (changedValues values : Partial)
    (call : Call StoredPaintSet) :
  call ∈ handle changedValues values →
  (∃ fields,
     call = SetFields fields
     ∧ ∀ c, ChooserForm.colors fields = Some c →
         (∀ b, is_Some (default ∅ (ChooserForm.colors values) !! b) →
               is_Some (c !! b))
         ∧ ∀ b l, c !! b = Some l →
             l = Some []
             ∨ ∃ ref, storeBoughtPaintSet changedValues = Some (Some ref)
                      ∧ fst ref = b ∧ b ≠ 0
                      ∧ l = setColors storeBoughtPaintSets ref)
  ∨ (∃ t, call = GetPaintSetByType StoredPaintSet t
          ∧ type changedValues = Some t ∧ t ≠ 0)
  ∨ (∃ t stored,
       call = SetFieldsValueFromDb StoredPaintSet stored
       ∧ type changedValues = Some t ∧ t ≠ 0
       ∧ getPaintSetByType t = Some stored).
Proof.
  intros Hin.
  destruct call as [fields|t|stored].
  { left. exists fields. split; [done|].
    intros c Hc. by apply (own_update_colours changedValues values fields). }
  all: right; revert Hin; unfold handleFormValuesChange; rewrite !elem_of_app;
    intros [Hin|[Hin|[Hin|Hin]]].
  all: try (destruct (brands changedValues) as [bs|];
            [by apply list_elem_of_singleton in Hin
            |by apply elem_of_nil in Hin]).
  all: try (destruct (storeBoughtPaintSet changedValues) as [[ref|]|];
            [by apply list_elem_of_singleton in Hin
            |by apply elem_of_nil in Hin..]).
  all: try (destruct (ChooserForm.colors changedValues) as [cs|];
            [by apply list_elem_of_singleton in Hin
            |by apply elem_of_nil in Hin]).
  all: destruct (type changedValues) as [t'|]; [|by apply elem_of_nil in Hin].
  all: destruct (Z.eqb_spec t' 0) as [?|Ht']; [by apply elem_of_nil in Hin|].
  all: rewrite !elem_of_cons in Hin; destruct Hin as [?|[Heq|Hin]]; [done|..].
  - injection Heq as ->. left. by exists t'.
  - destruct (getPaintSetByType t');
      [by apply list_elem_of_singleton in Hin|by apply elem_of_nil in Hin].
  - done.
  - right. exists t'.
    destruct (getPaintSetByType t') as [r|] eqn:E;
      [|by apply elem_of_nil in Hin].
    apply list_elem_of_singleton in Hin. injection Hin as ->.
    by exists r.
Qed.

(** X17: no call of [form.setFieldsValue] that the handler makes with
    fields of its own writes the paint type; the brands it writes are the
    empty list; and the store-bought set it writes is [undefined] or the
    custom paint set, the latter exactly in the call made because the
    colours changed. *)
Theorem handler_writes (changedValues values fields : Partial) :
  SetFields fields ∈ handle changedValues values →
  type fields = None
  ∧ (brands fields = None ∨ brands fields = Some [])
  ∧ (storeBoughtPaintSet fields = None
     ∨ storeBoughtPaintSet fields = Some None
     ∨ (storeBoughtPaintSet fields = Some (Some customPaintSet)
        ∧ is_Some (ChooserForm.colors changedValues)
        ∧ ChooserForm.colors fields = None)).
Proof.
  unfold handleFormValuesChange. rewrite !elem_of_app.
  intros [Hin|[Hin|[Hin|Hin]]].
  - destruct (type changedValues) as [t|]; [|by apply elem_of_nil in Hin].
    destruct (t =? 0); [by apply elem_of_nil in Hin|].
    rewrite !elem_of_cons in Hin. destruct Hin as [[= ->]|[?|Hin]]; [|done|].
    + cbn. auto.
    + destruct (getPaintSetByType t);
        [by apply list_elem_of_singleton in Hin|by apply elem_of_nil in Hin].
  - destruct (brands changedValues) as [bs|]; [|by apply elem_of_nil in Hin].
    apply list_elem_of_singleton in Hin. injection Hin as ->. cbn. auto.
  - destruct (storeBoughtPaintSet changedValues) as [[ref|]|];
      [|by apply elem_of_nil in Hin..].
    apply list_elem_of_singleton in Hin. injection Hin as ->. cbn. auto.
  - destruct (ChooserForm.colors changedValues) as [c|] eqn:E;
      [|by apply elem_of_nil in Hin].
    apply list_elem_of_singleton in Hin. injection Hin as ->. cbn.
    split; [done|]. split; [by left|]. right. right. eauto.
Qed.

Local Abbreviation chose ref :=
  {| type := None; brands := None; storeBoughtPaintSet := Some (Some ref);
     ChooserForm.colors := None |}.
Local Abbreviation colorsPatch c :=
  {| type := None; brands := None; storeBoughtPaintSet := None;
     ChooserForm.colors := Some c |}.

Lemma handle_chose ref values :
  handle (chose ref) values
  = [SetFields (colorsPatch
       (if negb (fst ref =? 0)
           && negb (Js.size storeBoughtPaintSets =? 0)%nat
        then <[fst ref := setColors storeBoughtPaintSets ref]>
               (emptiedColors values)
        else emptiedColors values))].
Proof. reflexivity. Qed.

Lemma size_elem_of {K V} (m : Js.Map K V) x :
  x ∈ m → (Js.size m =? 0)%nat = false.
Proof. destruct m; [by intros ?%elem_of_nil|done]. Qed.

(** X15: a set that the cascader offers can be chosen.  When the map of
    store-bought sets keeps each set under its own name, the pair of values
    of a brand option other than 0 and of one of its children makes the
    handler write the colours of that very set into the list of the brand,
    and the empty list into the others, in one call. *)
Theorem offered_set_fills_colours
    (labels : PaintType → PaintBrand → option Label) (t : PaintType)
    (b : PaintBrand) (inner : Js.Map string StoreBoughtPaintSet)
    (s : StoreBoughtPaintSet) (values : Partial) :
  NoDup (fst <$> storeBoughtPaintSets) → NoDup (fst <$> inner) →
  (b, inner) ∈ storeBoughtPaintSets → (PaintSetChooser.name s, s) ∈ inner →
  b ≠ 0 → t ≠ 0 →
  (∃ option children child,
     option ∈ getStoreBoughtPaintSetOptions labels (Some t)
                storeBoughtPaintSets
     ∧ Js.get option "value" = Js.Num b
     ∧ Js.get option "children" = Js.Arr children
     ∧ child ∈ children
     ∧ Js.get child "value" = Js.Str (PaintSetChooser.name s))
  ∧ handle (chose (b, Some (PaintSetChooser.name s))) values
    = [SetFields (colorsPatch
         (<[b := Some (PaintSetChooser.colors s)]> (emptiedColors values)))].
Proof.
  intros Hnd Hndi Hb Hs Hb0 Ht. split.
  - exists (brandOption labels t (b, inner)),
      (setOption <$> Js.values inner), (setOption s).
    split; [|split; [|split; [|split]]]; try reflexivity.
    + rewrite options_unfold; [|done|].
      * apply elem_of_cons. right.
        apply list_elem_of_fmap. by exists (b, inner).
      * intros E. rewrite E in Hb. by apply elem_of_nil in Hb.
    + apply list_elem_of_fmap. exists s. split; [done|].
      apply list_elem_of_fmap. by exists (PaintSetChooser.name s, s).
  - rewrite handle_chose. cbn [fst].
    rewrite (size_elem_of _ _ Hb).
    destruct (Z.eqb_spec b 0) as [?|_]; [done|]. cbn [negb andb].
    do 3 f_equal. unfold setColors. cbn [fst snd].
    apply (mapGet_elem_of _ _ _ Hnd) in Hb. rewrite Hb. cbn.
    apply (mapGet_elem_of _ _ _ Hndi) in Hs. by rewrite Hs.
Qed.

(** X16: choosing the custom paint set, whose brand is 0, or choosing
    anything while no store-bought set is loaded, is answered by one call
    that writes colours with the brands that had colours before, none more
    and none less, and an empty list for each. *)
Theorem custom_set_empties_colours (ref : SetRef) (values : Partial) :
  fst ref = 0 ∨ storeBoughtPaintSets = [] →
  ∃ c, handle (chose ref) values = [SetFields (colorsPatch c)]
       ∧ dom c = dom (default ∅ (ChooserForm.colors values))
       ∧ ∀ b l, c !! b = Some l → l = Some [].
Proof.
  intros H. exists (emptiedColors values). split; [|split].
  - rewrite handle_chose. destruct H as [->| ->]; [done|].
    cbn. by rewrite andb_false_r.
  - unfold emptiedColors.
    destruct (ChooserForm.colors values) as [c|]; cbn; [|done].
    by rewrite dom_fmap_L.
  - intros b l. rewrite emptiedColors_lookup.
    destruct (default ∅ (ChooserForm.colors values) !! b); by intros [= <-].
Qed.

(** X19: a reference to a brand other than 0 that the loaded map of
    store-bought sets cannot resolve, because the brand is missing, the name
    is missing or the brand has no set of that name, leaves the brand in the
    written colours with [undefined] in place of a list. *)
Theorem unknown_set_undefined_colours (ref : SetRef) (values : Partial) :
  fst ref ≠ 0 → storeBoughtPaintSets ≠ [] →
  (mapGet storeBoughtPaintSets (fst ref) = None
   ∨ snd ref = None
   ∨ ∃ inner n, mapGet storeBoughtPaintSets (fst ref) = Some inner
                ∧ snd ref = Some n ∧ mapGet inner n = None) →
  ∃ c, handle (chose ref) values = [SetFields (colorsPatch c)]
       ∧ c !! fst ref = Some None.
Proof.
  intros Hb Hsets Hmiss.
  exists (<[fst ref := None]> (emptiedColors values)). split.
  - rewrite handle_chose. destruct (Z.eqb_spec (fst ref) 0) as [?|_]; [done|].
    destruct storeBoughtPaintSets as [|e m] eqn:E; [done|]. cbn [negb andb Js.size length Nat.eqb].
    do 4 f_equal. unfold setColors.
    destruct Hmiss as [->|[H|(inner & n & -> & -> & H)]]; [done| |cbn; by rewrite H].
    rewrite H. by destruct (mapGet _ _).
  - by rewrite lookup_insert_eq.
Qed.

(** X18: the handler reads the stored paint set only for a changed paint
    type other than 0, and then once, for that type, right after the call
    that resets brands, set and colours; what the store gives back is written
    to the form right after the read, before every call made for the other
    changed fields; without such a type the store is not read. *)
Theorem handler_database (changedValues values : Partial) :
  (∀ t, type changedValues = Some t → t ≠ 0 →
     ∃ rest,
       handle changedValues values
       = (SetFields {| type := None; brands := Some [];
                       storeBoughtPaintSet := Some None;
                       ChooserForm.colors := Some (emptiedColors values) |}
          :: GetPaintSetByType StoredPaintSet t
          :: option_list (SetFieldsValueFromDb StoredPaintSet
                          <$> getPaintSetByType t)
          ++ rest)%list
       ∧ ∀ call, call ∈ rest → ∃ fields, call = SetFields fields)
  ∧ (type changedValues = None ∨ type changedValues = Some 0 →
     ∀ call, call ∈ handle changedValues values →
             ∃ fields, call = SetFields fields).
Proof.
  assert (Hrest : ∀ call,
    call ∈ ((match brands changedValues with
             | Some _ =>
                 [SetFields {| type := None; brands := None;
                     storeBoughtPaintSet := Some None;
                     ChooserForm.colors := Some (emptiedColors values) |}]
             | None => []
             end)
            ++ (match storeBoughtPaintSet changedValues with
                | Some (Some ref) =>
                    [SetFields (colorsPatch
                       (if negb (fst ref =? 0)
                           && negb (Js.size storeBoughtPaintSets =? 0)%nat
                        then <[fst ref := setColors storeBoughtPaintSets ref]>
                               (emptiedColors values)
                        else emptiedColors values))]
                | _ => []
                end)
            ++ (match ChooserForm.colors changedValues with
                | Some _ =>
                    [SetFields {| type := None; brands := None;
                        storeBoughtPaintSet := Some (Some customPaintSet);
                        ChooserForm.colors := None |}]
                | None => []
                end))%list →
    ∃ fields, call = SetFields fields).
  { intros call. rewrite !elem_of_app. intros [Hin|[Hin|Hin]].
    - destruct (brands changedValues) as [bs|];
        [|by apply elem_of_nil in Hin].
      apply list_elem_of_singleton in Hin. eauto.
    - destruct (storeBoughtPaintSet changedValues) as [[ref|]|];
        [|by apply elem_of_nil in Hin..].
      apply list_elem_of_singleton in Hin. eauto.
    - destruct (ChooserForm.colors changedValues) as [cs|];
        [|by apply elem_of_nil in Hin].
      apply list_elem_of_singleton in Hin. eauto. }
  split.
  - intros t Ht Ht0. eexists. split.
    + unfold handleFormValuesChange. rewrite Ht.
      destruct (Z.eqb_spec t 0) as [?|_]; [done|].
      cbn [app]. do 2 f_equal.
      destruct (getPaintSetByType t); cbn [fmap option_fmap option_map option_list app]; reflexivity.
    + exact Hrest.
  - intros Ht call. unfold handleFormValuesChange.
    destruct Ht as [->| ->]; cbn [Z.eqb app]; exact (Hrest call).
Qed.

End FormFacts.

Lemma handler_empties_colours_witness :
  (∃ fields,
     ChooserForm.SetFieldsValueFromDb nat 4%nat
     = ChooserForm.SetFieldsValue nat fields
     ∧ ∀ c, ChooserForm.colors fields = Some c →
         (∀ b, is_Some (default ∅ (ChooserForm.colors ChooserForm.noFields)
                          !! b) → is_Some (c !! b))
         ∧ ∀ b l, c !! b = Some l →
             l = Some []
             ∨ ∃ ref, @None (option ChooserForm.SetRef) = Some (Some ref)
                      ∧ fst ref = b ∧ b ≠ 0%Z
                      ∧ l = ChooserForm.setColors [] ref)
  ∨ (∃ t, ChooserForm.SetFieldsValueFromDb nat 4%nat
          = ChooserForm.GetPaintSetByType nat t
          ∧ Some 2%Z = Some t ∧ t ≠ 0%Z)
  ∨ (∃ t stored,
       ChooserForm.SetFieldsValueFromDb nat 4%nat
       = ChooserForm.SetFieldsValueFromDb nat stored
       ∧ Some 2%Z = Some t ∧ t ≠ 0%Z
       ∧ Some 4%nat = Some stored).
Proof.
  apply (handler_empties_colours nat (fun _ => Some 4%nat) []
    {| ChooserForm.type := Some 2%Z; ChooserForm.brands := None;
       ChooserForm.storeBoughtPaintSet := None;
       ChooserForm.colors := None |}
    ChooserForm.noFields (ChooserForm.SetFieldsValueFromDb nat 4%nat)).
  vm_compute. do 2 apply list_elem_of_further. apply list_elem_of_here.
Defined.

Lemma handler_writes_witness :
  ChooserForm.type
    {| ChooserForm.type := None; ChooserForm.brands := None;
       ChooserForm.storeBoughtPaintSet :=
         Some (Some ChooserForm.customPaintSet);
       ChooserForm.colors := None |} = None.
Proof.
  refine (proj1 (handler_writes unit (fun _ => None) []
    {| ChooserForm.type := None; ChooserForm.brands := None;
       ChooserForm.storeBoughtPaintSet := None;
       ChooserForm.colors := Some {[ 1%Z := Some [7%Z] ]} |}
    {| ChooserForm.type := Some 1%Z; ChooserForm.brands := Some [1%Z];
       ChooserForm.storeBoughtPaintSet := None;
       ChooserForm.colors := Some {[ 1%Z := Some [7%Z] ]} |}
    {| ChooserForm.type := None; ChooserForm.brands := None;
       ChooserForm.storeBoughtPaintSet :=
         Some (Some ChooserForm.customPaintSet);
       ChooserForm.colors := None |} _)).
  apply list_elem_of_singleton. reflexivity.
Defined.

Lemma offered_set_fills_colours_witness :
  ChooserForm.handleFormValuesChange unit (fun _ => None)
    [(1%Z, [("Basic 12",
             {| PaintSetChooser.name := "Basic 12";
                PaintSetChooser.colors := [3%Z; 5%Z] |})])]
    {| ChooserForm.type := None; ChooserForm.brands := None;
       ChooserForm.storeBoughtPaintSet := Some (Some (1%Z, Some "Basic 12"));
       ChooserForm.colors := None |}
    {| ChooserForm.type := Some 2%Z; ChooserForm.brands := Some [1%Z];
       ChooserForm.storeBoughtPaintSet := None;
       ChooserForm.colors := Some {[ 1%Z := Some [9%Z] ]} |}
  = [ChooserForm.SetFieldsValue unit
       {| ChooserForm.type := None; ChooserForm.brands := None;
          ChooserForm.storeBoughtPaintSet := None;
          ChooserForm.colors :=
            Some (<[1%Z := Some [3%Z; 5%Z]]>
                    (ChooserForm.emptiedColors
                       {| ChooserForm.type := Some 2%Z;
                          ChooserForm.brands := Some [1%Z];
                          ChooserForm.storeBoughtPaintSet := None;
                          ChooserForm.colors :=
                            Some {[ 1%Z := Some [9%Z] ]} |})) |}].
Proof.
  refine (proj2 (offered_set_fills_colours unit (fun _ => None)
    [(1%Z, [("Basic 12",
             {| PaintSetChooser.name := "Basic 12";
                PaintSetChooser.colors := [3%Z; 5%Z] |})])]
    (fun _ _ => None) 2%Z 1%Z
    [("Basic 12",
      {| PaintSetChooser.name := "Basic 12";
         PaintSetChooser.colors := [3%Z; 5%Z] |})]
    {| PaintSetChooser.name := "Basic 12";
       PaintSetChooser.colors := [3%Z; 5%Z] |}
    {| ChooserForm.type := Some 2%Z; ChooserForm.brands := Some [1%Z];
       ChooserForm.storeBoughtPaintSet := None;
       ChooserForm.colors := Some {[ 1%Z := Some [9%Z] ]} |}
    _ _ _ _ _ _)).
  - apply NoDup_singleton.
  - apply NoDup_singleton.
  - apply list_elem_of_singleton. reflexivity.
  - apply list_elem_of_singleton. reflexivity.
  - discriminate.
  - discriminate.
Defined.

Lemma custom_set_empties_colours_witness :
  ∃ c, ChooserForm.handleFormValuesChange unit (fun _ => None)
         [(1%Z, [])]
         {| ChooserForm.type := None; ChooserForm.brands := None;
            ChooserForm.storeBoughtPaintSet :=
              Some (Some ChooserForm.customPaintSet);
            ChooserForm.colors := None |}
         {| ChooserForm.type := Some 2%Z; ChooserForm.brands := Some [1%Z];
            ChooserForm.storeBoughtPaintSet := None;
            ChooserForm.colors := Some {[ 1%Z := Some [9%Z] ]} |}
       = [ChooserForm.SetFieldsValue unit
            {| ChooserForm.type := None; ChooserForm.brands := None;
               ChooserForm.storeBoughtPaintSet := None;
               ChooserForm.colors := Some c |}]
       ∧ dom c = dom (default ∅ (Some ({[ 1%Z := Some [9%Z] ]}
                                        : gmap Z (option (list Z)))))
       ∧ ∀ b l, c !! b = Some l → l = Some [].
Proof.
  apply (custom_set_empties_colours unit (fun _ => None) [(1%Z, [])]
    ChooserForm.customPaintSet
    {| ChooserForm.type := Some 2%Z; ChooserForm.brands := Some [1%Z];
       ChooserForm.storeBoughtPaintSet := None;
       ChooserForm.colors := Some {[ 1%Z := Some [9%Z] ]} |}).
  left. reflexivity.
Defined.

Lemma unknown_set_undefined_colours_witness :
  ∃ c, ChooserForm.handleFormValuesChange unit (fun _ => None)
         [(1%Z, [])]
         {| ChooserForm.type := None; ChooserForm.brands := None;
            ChooserForm.storeBoughtPaintSet :=
              Some (Some (1%Z, Some "Basic 12"));
            ChooserForm.colors := None |}
         {| ChooserForm.type := Some 2%Z; ChooserForm.brands := Some [1%Z];
            ChooserForm.storeBoughtPaintSet := None;
            ChooserForm.colors := Some {[ 1%Z := Some [9%Z] ]} |}
       = [ChooserForm.SetFieldsValue unit
            {| ChooserForm.type := None; ChooserForm.brands := None;
               ChooserForm.storeBoughtPaintSet := None;
               ChooserForm.colors := Some c |}]
       ∧ c !! 1%Z = Some None.
Proof.
  apply (unknown_set_undefined_colours unit (fun _ => None) [(1%Z, [])]
    (1%Z, Some "Basic 12")
    {| ChooserForm.type := Some 2%Z; ChooserForm.brands := Some [1%Z];
       ChooserForm.storeBoughtPaintSet := None;
       ChooserForm.colors := Some {[ 1%Z := Some [9%Z] ]} |}).
  - discriminate.
  - discriminate.
  - right. right. exists [], "Basic 12". repeat split; reflexivity.
Defined.

Lemma handler_database_witness :
  ∃ rest,
    ChooserForm.handleFormValuesChange nat (fun _ => Some 4%nat) []
      {| ChooserForm.type := Some 2%Z; ChooserForm.brands := Some [];
         ChooserForm.storeBoughtPaintSet := None;
         ChooserForm.colors := None |}
      ChooserForm.noFields
    = (ChooserForm.SetFieldsValue nat
         {| ChooserForm.type := None; ChooserForm.brands := Some [];
            ChooserForm.storeBoughtPaintSet := Some None;
            ChooserForm.colors :=
              Some (ChooserForm.emptiedColors ChooserForm.noFields) |}
       :: ChooserForm.GetPaintSetByType nat 2%Z
       :: option_list (ChooserForm.SetFieldsValueFromDb nat <$> Some 4%nat)
       ++ rest)%list
    ∧ ∀ call, call ∈ rest →
        ∃ fields, call = ChooserForm.SetFieldsValue nat fields.
Proof.
  apply (proj1 (handler_database nat (fun _ => Some 4%nat) []
    {| ChooserForm.type := Some 2%Z; ChooserForm.brands := Some [];
       ChooserForm.storeBoughtPaintSet := None;
       ChooserForm.colors := None |}
    ChooserForm.noFields) 2%Z).
  - reflexivity.
  - discriminate.
Defined.

Lemma options_empty_iff_witness :
  head (PaintSetChooser.getStoreBoughtPaintSetOptions (fun _ _ => None)
          (Some 1%Z) [(1%Z, [])])
  = Some PaintSetChooser.customPaintSetOption.
Proof.
  apply (proj2 (options_empty_iff (fun _ _ => None) (Some 1%Z) [(1%Z, [])])).
  discriminate.
Defined.

(** ** The record of the form *)

Section RecordFacts.
Import PaintSetChooser ChooserOptions ChooserForm.
Local Open Scope Z_scope.

Variable StoredPaintSet : Type.
Variable getPaintSetByType : PaintType → option StoredPaintSet.
Variable storeBoughtPaintSets :
  Js.Map PaintBrand (Js.Map string StoreBoughtPaintSet).
Variables (PaintSet Paints TabKey : Type).
Variable toPaintSet : Js.value → Paints → PaintSet.
Variables (Photo Colors : TabKey).

Local Abbreviation handle :=
  (handleFormValuesChange StoredPaintSet getPaintSetByType
     storeBoughtPaintSets).
Local Abbreviation SetFields := (SetFieldsValue StoredPaintSet).

(** Whatever the colours, as a JavaScript object they map each brand to an
    array of numbers or to [undefined]. *)
Lemma colorsToJs_shape (c : gmap Z (option (list Z))) :
  isFormColors (colorsToJs c) = true.
Proof.
  unfold isFormColors, colorsToJs. apply forallb_forall.
  intros [k v] Hin. apply in_map_iff in Hin as ([b l] & [= <- <-] & _).
  cbn. destruct l as [l|]; cbn; [|done].
  apply orb_true_iff. left. apply forallb_forall.
  intros x Hx. by apply in_map_iff in Hx as (n & <- & _).
Qed.

(** The four updates the handler makes with fields of its own. *)
Lemma own_updates (changedValues values fields : Partial) :
  SetFields fields ∈ handle changedValues values →
  ∃ c, fields = {| type := None; brands := Some [];
                   storeBoughtPaintSet := Some None;
                   ChooserForm.colors := Some c |}
       ∨ fields = {| type := None; brands := None;
                     storeBoughtPaintSet := Some None;
                     ChooserForm.colors := Some c |}
       ∨ fields = {| type := None; brands := None;
                     storeBoughtPaintSet := None;
                     ChooserForm.colors := Some c |}
       ∨ fields = {| type := None; brands := None;
                     storeBoughtPaintSet := Some (Some customPaintSet);
                     ChooserForm.colors := None |}.
Proof.
  unfold handleFormValuesChange. rewrite !elem_of_app.
  intros [Hin|[Hin|[Hin|Hin]]].
  - destruct (type changedValues) as [t|]; [|by apply elem_of_nil in Hin].
    destruct (t =? 0); [by apply elem_of_nil in Hin|].
    rewrite !elem_of_cons in Hin. destruct Hin as [[= ->]|[?|Hin]]; [|done|].
    + eexists. by left.
    + destruct (getPaintSetByType t);
        [by apply list_elem_of_singleton in Hin|by apply elem_of_nil in Hin].
  - destruct (brands changedValues) as [bs|]; [|by apply elem_of_nil in Hin].
    apply list_elem_of_singleton in Hin. injection Hin as ->.
    eexists. right. by left.
  - destruct (storeBoughtPaintSet changedValues) as [[ref|]|];
      [|by apply elem_of_nil in Hin..].
    apply list_elem_of_singleton in Hin. injection Hin as ->.
    eexists. right. right. by left.
  - destruct (ChooserForm.colors changedValues) as [cs|];
      [|by apply elem_of_nil in Hin].
    apply list_elem_of_singleton in Hin. injection Hin as ->.
    exists ∅. by do 3 right.
Qed.


End RecordFacts.



